(** * Soccer stats tracker: the record store of [Soccer.cpp]

    A shallow embedding of the four member functions of class [Soccer]
    ([ensureFileExists], [displayPlayers], [addPlayer], [updatePlayer])
    over an explicit model of the one file the object is bound to, and
    the properties of the record store proved about it.

    Conventions.
    - Text ([std::string], file contents) is a list of characters.
    - An [int] is a [Z] in the range [INT_MIN .. INT_MAX] (32 bits).
    - The file at [filename_] is a [medium]; every member function
      takes the medium and returns the medium it leaves behind together
      with what it sent to [cout] and [cerr].
    - [int goals;] is declared without an initialiser in both reading
      loops.  What the variable holds when [ss >> goals] stores nothing
      is supplied by an oracle [ind : nat -> Z], indexed by the loop
      iteration; every statement is proved for all oracles. *)

From Stdlib Require Import ZArith Ascii String List Bool Arith Lia.
Import ListNotations.

Local Open Scope Z_scope.

(** ** Text *)

Definition text := list ascii.

Definition txt (s : string) : text := list_ascii_of_string s.

Definition newline : ascii := ascii_of_nat 10.
Definition comma : ascii := ","%char.

Fixpoint text_eqb (a b : text) : bool :=
  match a, b with
  | [], [] => true
  | x :: a', y :: b' => Ascii.eqb x y && text_eqb a' b'
  | _, _ => false
  end.

(** [line.empty()] *)
Definition empty (line : text) : bool :=
  match line with
  | [] => true
  | _ :: _ => false
  end.

(** ** The [int] type *)

Definition INT_MAX : Z := 2147483647.
Definition INT_MIN : Z := -2147483648.

Definition in_int (z : Z) : Prop := INT_MIN <= z <= INT_MAX.

(** The 32 bits found in an [int] object, read as a signed value. *)
Definition to_int (z : Z) : Z := (z + 2147483648) mod 4294967296 - 2147483648.

(** What [operator>>(int&)] stores for a numeral that does not fit. *)
Definition saturate (z : Z) : Z :=
  if z <? INT_MIN then INT_MIN
  else if INT_MAX <? z then INT_MAX
  else z.

(** ** Character classes of the "C" locale *)

Definition is_digit (c : ascii) : bool :=
  let n := nat_of_ascii c in (48 <=? n)%nat && (n <=? 57)%nat.

Definition digit_val (c : ascii) : Z := Z.of_nat (nat_of_ascii c) - 48.

Definition digit_char (d : Z) : ascii := ascii_of_nat (48 + Z.to_nat d).

Definition isspace (c : ascii) : bool :=
  let n := nat_of_ascii c in
  (n =? 32)%nat || ((9 <=? n)%nat && (n <=? 13)%nat).

Arguments is_digit : simpl never.
Arguments digit_val : simpl never.
Arguments digit_char : simpl never.
Arguments isspace : simpl never.

(** ** [std::getline(stream, s, delim)]

    Characters are extracted up to [delim], which is extracted and
    dropped.  The result is the extracted text and the stream that
    remains: [Some rest] when the delimiter was met, [None] when the end
    of input was reached first (the stream then carries [eofbit]). *)
Fixpoint getline (delim : ascii) (input : text) : text * option text :=
  match input with
  | [] => ([], None)
  | c :: rest =>
      if Ascii.eqb c delim then ([], Some rest)
      else let (s, st) := getline delim rest in (c :: s, st)
  end.

(** The lines that [while (getline(file, line))] goes through: the loop
    stops at the first call that extracts nothing at all, which happens
    exactly at the end of the input. *)
Fixpoint getlines (input : text) : list text :=
  match input with
  | [] => []
  | c :: rest =>
      if Ascii.eqb c newline then [] :: getlines rest
      else match getlines rest with
           | [] => [[c]]
           | line :: more => (c :: line) :: more
           end
  end.

(** ** [ss >> goals] *)

Fixpoint skipws (s : text) : text :=
  match s with
  | [] => []
  | c :: rest => if isspace c then skipws rest else s
  end.

(** Value of the longest run of decimal digits at the head of [s],
    continuing the accumulator [acc]. *)
Fixpoint digits_value (acc : Z) (s : text) : Z :=
  match s with
  | [] => acc
  | c :: rest =>
      if is_digit c then digits_value (10 * acc + digit_val c) rest else acc
  end.

(** [num_get<char>::get] in base ten on input that starts with a
    non-space character: one optional sign, then digits.  Without a
    digit the conversion fails and zero is stored; a value that does not
    fit is replaced by the nearest bound. *)
Definition num_get (s : text) : Z :=
  let '(negative, body) :=
    match s with
    | c :: rest =>
        if Ascii.eqb c "-"%char then (true, rest)
        else if Ascii.eqb c "+"%char then (false, rest)
        else (false, s)
    | [] => (false, s)
    end in
  match body with
  | c :: _ =>
      if is_digit c
      then saturate (if negative then - digits_value 0 body
                     else digits_value 0 body)
      else 0
  | [] => 0
  end.

(** [ss >> goals] on the stream left by [getline(ss, name, ',')], where
    [junk] is what [goals] holds beforehand.  The sentry fails, and
    nothing is stored, when [eofbit] is already set or when skipping
    white space runs into the end of the stream. *)
Definition extract_int (junk : Z) (st : option text) : Z :=
  match st with
  | None => to_int junk
  | Some rest =>
      match skipws rest with
      | [] => to_int junk
      | s => num_get s
      end
  end.

(** ** [out << goals] *)

Fixpoint put_digits (fuel : nat) (n : Z) (acc : text) : text :=
  match fuel with
  | O => acc
  | S fuel' =>
      let acc' := digit_char (n mod 10) :: acc in
      if n <? 10 then acc' else put_digits fuel' (n / 10) acc'
  end.

(** An [int] has at most ten decimal digits. *)
Definition put_int (n : Z) : text :=
  if n <? 0 then "-"%char :: put_digits 10 (- n) []
  else put_digits 10 n [].

(** ** Records *)

Definition record : Type := text * Z.

(** The body of both reading loops after the blank-line test:
    [stringstream ss(line); getline(ss, name, ','); ss >> goals;] *)
Definition parse_line (junk : Z) (line : text) : record :=
  let (name, ss) := getline comma line in
  (name, extract_int junk ss).

(** [while (getline(file, line)) { if (line.empty()) continue; ... }]
    over the lines still to come; [i] counts the iterations. *)
Fixpoint read_players (ind : nat -> Z) (i : nat) (lines : list text)
  : list record :=
  match lines with
  | [] => []
  | line :: more =>
      if empty line then read_players ind (S i) more
      else parse_line (ind i) line :: read_players ind (S i) more
  end.

(** [stream << name << "," << goals << "\n"] *)
Definition put_record (p : record) : text :=
  fst p ++ comma :: put_int (snd p) ++ [newline].

(** [for (auto& p : players) file << p.first << "," << p.second << "\n";] *)
Fixpoint put_players (players : list record) : text :=
  match players with
  | [] => []
  | p :: more => put_record p ++ put_players more
  end.

(** ** The file behind [filename_] *)

(** Either no file exists under the name (and the directory may or may
    not let one be created), or a file exists with its permission for
    reading, its permission for writing, and its bytes. *)
Inductive medium : Type :=
| Missing (creatable : bool)
| File (readable writable : bool) (bytes : text).

(** The four ways the class opens its file:
    [ifstream(f)], [ofstream(f, ios::app)], [fstream(f, ios::in | ios::out)]
    and [ofstream(f)]. *)
Inductive openmode : Type := ios_in | ios_app | ios_in_out | ios_out.

(** The file as the stream sees it right after a successful open;
    [None] when the open fails.  The output modes create a missing file
    (readable and writable by its creator); [ios_out] alone truncates. *)
Definition fopen (mode : openmode) (m : medium) : option medium :=
  match mode, m with
  | ios_in, File true _ _ => Some m
  | ios_in_out, File true true _ => Some m
  | ios_app, File _ true _ => Some m
  | ios_app, Missing true => Some (File true true [])
  | ios_out, File r true _ => Some (File r true [])
  | ios_out, Missing true => Some (File true true [])
  | _, _ => None
  end.

Definition bytes_of (m : medium) : text :=
  match m with
  | File _ _ bytes => bytes
  | Missing _ => []
  end.

Definition with_bytes (m : medium) (bytes : text) : medium :=
  match m with
  | File r w _ => File r w bytes
  | Missing c => Missing c
  end.

(** Writing [out] from offset zero, as after [seekp(0, ios::beg)]: the
    bytes of the file beyond the written ones stay where they are. *)
Definition overwrite (out old : text) : text :=
  out ++ skipn (length out) old.

(** ** The class *)

Record Soccer : Type := { filename_ : text }.

Record console : Type := { cout : text; cerr : text }.

Definition silent : console := {| cout := []; cerr := [] |}.

Definition could_not_open (self : Soccer) (purpose : string) : console :=
  {| cout := [];
     cerr := txt "Error: Could not open " ++ filename_ self
               ++ txt " for " ++ txt purpose ++ txt "." ++ [newline] |}.

(** *** [Soccer::displayPlayers] *)

Definition banner : text :=
  newline :: txt "Current Soccer Stats:" ++ newline
    :: txt "----------------------------" ++ [newline].

Definition show_player (p : record) : text :=
  txt "Player: " ++ fst p ++ txt " | Goals: " ++ put_int (snd p) ++ [newline].

(** Returns the (name, goals) pairs in the order they are printed, and
    the console output.  The file is only read. *)
Definition displayPlayers (self : Soccer) (ind : nat -> Z) (m : medium)
  : list record * console :=
  match fopen ios_in m with
  | None => ([], could_not_open self "reading")
  | Some f =>
      let shown := read_players ind 0 (getlines (bytes_of f)) in
      (shown, {| cout := banner ++ flat_map show_player shown; cerr := [] |})
  end.

(** *** [Soccer::addPlayer] *)

Definition addPlayer (self : Soccer) (name : text) (goals : Z) (m : medium)
  : medium * console :=
  match fopen ios_app m with
  | None => (m, could_not_open self "writing")
  | Some f =>
      (with_bytes f (bytes_of f ++ put_record (name, goals)),
       {| cout := txt "Added " ++ name ++ txt " with " ++ put_int goals
                    ++ txt " goals." ++ [newline];
          cerr := [] |})
  end.

(** *** [Soccer::updatePlayer] *)

(** Step 2, the range-based [for] with the [found] flag. *)
Fixpoint update_loop (name : text) (newGoals : Z) (players : list record)
  (found : bool) : list record * bool :=
  match players with
  | [] => ([], found)
  | p :: more =>
      let '(p', found') :=
        if text_eqb (fst p) name then ((fst p, newGoals), true)
        else (p, found) in
      let '(more', result) := update_loop name newGoals more found' in
      (p' :: more', result)
  end.

(** Step 2 as a whole: the vector that step 5 writes, and [found]. *)
Definition modify_or_add (name : text) (newGoals : Z) (players : list record)
  : list record * bool :=
  let '(players', found) := update_loop name newGoals players false in
  if negb found then (players' ++ [(name, newGoals)], found)
  else (players', found).

Definition not_found_message (name : text) : text :=
  name ++ txt " not found — adding as a new player." ++ [newline].

Definition updated_message (name : text) (newGoals : Z) : text :=
  txt "Updated " ++ name ++ txt "'s goals to " ++ put_int newGoals
    ++ txt "." ++ [newline].

Definition updatePlayer (self : Soccer) (ind : nat -> Z) (name : text)
  (newGoals : Z) (m : medium) : medium * console :=
  match fopen ios_in_out m with
  | None => (m, could_not_open self "updating")
  | Some f =>
      let players := read_players ind 0 (getlines (bytes_of f)) in
      let '(players', found) := modify_or_add name newGoals players in
      (with_bytes f (overwrite (put_players players') (bytes_of f)),
       {| cout := if negb found then not_found_message name
                  else updated_message name newGoals;
          cerr := [] |})
  end.

(** *** [Soccer::ensureFileExists] and the constructor *)

Definition seed : text :=
  txt "Messi,12" ++ newline :: txt "Rapinoe,9" ++ newline
    :: txt "Ronaldo,10" ++ [newline].

Definition ensureFileExists (self : Soccer) (m : medium) : medium * console :=
  match fopen ios_in m with
  | Some _ => (m, silent)
  | None =>
      match fopen ios_out m with
      | Some f =>
          (with_bytes f (bytes_of f ++ seed),
           {| cout := txt "(Created new file: " ++ filename_ self ++ txt ")"
                        ++ [newline];
              cerr := [] |})
      | None => (m, silent)
      end
  end.

(** [Soccer::Soccer(filename)]: the object, and the file as the
    constructor leaves it. *)
Definition construct (filename : text) (m : medium) : Soccer * medium :=
  let self := {| filename_ := filename |} in
  (self, fst (ensureFileExists self m)).

(** [Soccer league;] in [main]: the default file name. *)
Definition league : Soccer := {| filename_ := txt "soccer.csv" |}.

(** An oracle for closed examples: every uninitialised [goals] holds 0. *)
Definition zeros : nat -> Z := fun _ => 0.

(** ** Well-formedness predicates used in the statements *)

(** [d] does not occur in [s]. *)
Definition lacks (d : ascii) (s : text) : bool :=
  forallb (fun c => negb (Ascii.eqb c d)) s.

(** A name that the file format can carry: it holds neither the field
    delimiter nor a line break. *)
Definition plain (name : text) : bool :=
  lacks comma name && lacks newline name.

(** The text is empty or its last character is a line break, so that
    bytes appended to it start a new line. *)
Fixpoint line_terminated (s : text) : bool :=
  match s with
  | [] => true
  | c :: rest =>
      match rest with
      | [] => Ascii.eqb c newline
      | _ :: _ => line_terminated rest
      end
  end.

(** A record that came out of the store's own types: a plain name and a
    goal count that is an [int]. *)
Definition storable (p : record) : Prop :=
  plain (fst p) = true /\ in_int (snd p).

(** Positional value of a digit string. *)
Definition decimal (ds : text) : Z :=
  fold_left (fun acc c => 10 * acc + digit_val c) ds 0.

(** Repeated [addPlayer], one call per record, in order. *)
Definition addPlayers (self : Soccer) (rs : list record) (m : medium)
  : medium :=
  fold_left (fun f p => fst (addPlayer self (fst p) (snd p) f)) rs m.

(** The text is empty or starts with something that is not a digit, so
    a run of digits placed before it ends where it starts. *)
Definition stops (tail : text) : bool :=
  match tail with
  | [] => true
  | c :: _ => negb (is_digit c)
  end.

(** Whether the text starts with a numeral [num_get] converts: a digit,
    possibly after one sign. *)
Definition numeral_start (s : text) : bool :=
  match s with
  | [] => false
  | c :: rest =>
      if Ascii.eqb c "-"%char || Ascii.eqb c "+"%char then negb (stops rest)
      else is_digit c
  end.

(** The value a sign gives to a magnitude. *)
Definition signed (sign : text) (v : Z) : Z :=
  if text_eqb sign (txt "-") then - v else v.

Definition is_sign (sign : text) : bool :=
  text_eqb sign [] || text_eqb sign (txt "+") || text_eqb sign (txt "-").

(** What the body of the range-based [for] makes of one record. *)
Definition renew (name : text) (newGoals : Z) (p : record) : record :=
  if text_eqb (fst p) name then (fst p, newGoals) else p.

(** [p.first == name] *)
Definition named (name : text) (p : record) : bool := text_eqb (fst p) name.

(** Text that starts with a visible character and not with a numeral. *)
Definition unnumeric (word : text) : bool :=
  match word with
  | [] => false
  | c :: _ => negb (isspace c) && negb (numeral_start word)
  end.

(** * Facts about the embedding *)

(** ** Text and characters *)

Lemma text_eqb_eq (a b : text) : text_eqb a b = true <-> a = b.
Proof.
  revert b; induction a as [|x a IH]; intros [|y b]; simpl;
    try (split; [discriminate | congruence]); try tauto.
  rewrite andb_true_iff, Ascii.eqb_eq, IH.
  split; [intros [-> ->]; reflexivity | intros H; injection H; auto].
Qed.

Lemma text_eqb_refl (a : text) : text_eqb a a = true.
Proof. apply text_eqb_eq; reflexivity. Qed.

Lemma text_eqb_neq (a b : text) : a <> b -> text_eqb a b = false.
Proof.
  intros H; destruct (text_eqb a b) eqn:E; [|reflexivity].
  apply text_eqb_eq in E; contradiction.
Qed.

Lemma lacks_app (d : ascii) (a b : text) :
  lacks d (a ++ b) = lacks d a && lacks d b.
Proof. apply forallb_app. Qed.

Lemma digit_not_special (c : ascii) :
  is_digit c = true ->
  Ascii.eqb c comma = false /\ Ascii.eqb c newline = false /\
  isspace c = false /\ Ascii.eqb c "-"%char = false /\
  Ascii.eqb c "+"%char = false.
Proof.
  destruct c as [[] [] [] [] [] [] [] []]; vm_compute; intros H;
    try discriminate H; repeat split.
Qed.

Lemma digit_char_spec (d : Z) :
  0 <= d < 10 -> is_digit (digit_char d) = true /\ digit_val (digit_char d) = d.
Proof.
  intros H.
  assert (d = 0 \/ d = 1 \/ d = 2 \/ d = 3 \/ d = 4 \/ d = 5 \/ d = 6 \/
          d = 7 \/ d = 8 \/ d = 9) as C by lia.
  repeat (destruct C as [-> | C]; [split; reflexivity|]).
  subst d; split; reflexivity.
Qed.

(** ** [getline] *)

Lemma getline_delim (d : ascii) (s rest : text) :
  lacks d s = true -> getline d (s ++ d :: rest) = (s, Some rest).
Proof.
  induction s as [|c s IH]; simpl; intros H.
  - rewrite Ascii.eqb_refl; reflexivity.
  - apply andb_true_iff in H as [Hc Hs].
    apply negb_true_iff in Hc; rewrite Hc, (IH Hs); reflexivity.
Qed.

Lemma getline_eof (d : ascii) (s : text) :
  lacks d s = true -> getline d s = (s, None).
Proof.
  induction s as [|c s IH]; simpl; intros H; [reflexivity|].
  apply andb_true_iff in H as [Hc Hs].
  apply negb_true_iff in Hc; rewrite Hc, (IH Hs); reflexivity.
Qed.

(** What [getline] extracts never holds the delimiter, and holds no
    character that the input did not hold. *)
Lemma getline_lacks_delim (d : ascii) (s : text) :
  lacks d (fst (getline d s)) = true.
Proof.
  induction s as [|c s IH]; simpl; [reflexivity|].
  destruct (Ascii.eqb c d) eqn:E; [reflexivity|].
  destruct (getline d s) as [x st]; simpl in *.
  rewrite E, IH; reflexivity.
Qed.

Lemma getline_lacks_other (d e : ascii) (s : text) :
  lacks e s = true -> lacks e (fst (getline d s)) = true.
Proof.
  induction s as [|c s IH]; simpl; intros H; [reflexivity|].
  apply andb_true_iff in H as [Hc Hs].
  destruct (Ascii.eqb c d); [reflexivity|].
  specialize (IH Hs); destruct (getline d s) as [x st]; simpl in *.
  rewrite Hc, IH; reflexivity.
Qed.

(** The extracted text is the input up to the first delimiter. *)
Lemma getline_split (d : ascii) (s : text) :
  match getline d s with
  | (x, Some rest) => s = x ++ d :: rest
  | (x, None) => s = x
  end.
Proof.
  induction s as [|c s IH]; simpl; [reflexivity|].
  destruct (Ascii.eqb c d) eqn:E.
  - apply Ascii.eqb_eq in E; subst c; reflexivity.
  - destruct (getline d s) as [x [rest|]]; simpl; rewrite IH at 1; reflexivity.
Qed.

(** ** [getlines] *)

Lemma getlines_nil_inv (s : text) : getlines s = [] -> s = [].
Proof.
  destruct s as [|c s]; simpl; [reflexivity|].
  destruct (Ascii.eqb c newline); [discriminate|].
  destruct (getlines s); discriminate.
Qed.

(** One turn of [while (getline(file, line))]. *)
Lemma getlines_step (c : ascii) (s : text) :
  getlines (c :: s) =
  match getline newline (c :: s) with
  | (line, Some rest) => line :: getlines rest
  | (line, None) => [line]
  end.
Proof.
  revert c; induction s as [|c' s IH]; intros c.
  - simpl; destruct (Ascii.eqb c newline); reflexivity.
  - change (getlines (c :: c' :: s))
      with (if Ascii.eqb c newline then [] :: getlines (c' :: s)
            else match getlines (c' :: s) with
                 | [] => [[c]]
                 | line :: more => (c :: line) :: more
                 end).
    change (getline newline (c :: c' :: s))
      with (if Ascii.eqb c newline then ([], Some (c' :: s))
            else let (x, st) := getline newline (c' :: s) in (c :: x, st)).
    destruct (Ascii.eqb c newline); [reflexivity|].
    rewrite IH.
    destruct (getline newline (c' :: s)) as [x [rest|]]; reflexivity.
Qed.

Lemma getlines_line (line rest : text) :
  lacks newline line = true ->
  getlines (line ++ newline :: rest) = line :: getlines rest.
Proof.
  induction line as [|c line IH]; simpl; intros H.
  - reflexivity.
  - apply andb_true_iff in H as [Hc Hl].
    apply negb_true_iff in Hc.
    change (Ascii.eqb c (ascii_of_nat 10)) with (Ascii.eqb c newline).
    rewrite Hc, (IH Hl); reflexivity.
Qed.

Lemma getlines_app (a b : text) :
  line_terminated a = true -> getlines (a ++ b) = getlines a ++ getlines b.
Proof.
  induction a as [|c a IH]; intros H; [reflexivity|].
  destruct a as [|c' a].
  - simpl in H; simpl. change (Ascii.eqb c (ascii_of_nat 10)) with (Ascii.eqb c newline).
    rewrite H; reflexivity.
  - change (line_terminated (c :: c' :: a)) with (line_terminated (c' :: a)) in H.
    specialize (IH H).
    change (getlines ((c :: c' :: a) ++ b))
      with (if Ascii.eqb c newline then [] :: getlines ((c' :: a) ++ b)
            else match getlines ((c' :: a) ++ b) with
                 | [] => [[c]]
                 | line :: more => (c :: line) :: more
                 end).
    change (getlines (c :: c' :: a))
      with (if Ascii.eqb c newline then [] :: getlines (c' :: a)
            else match getlines (c' :: a) with
                 | [] => [[c]]
                 | line :: more => (c :: line) :: more
                 end).
    rewrite IH.
    destruct (Ascii.eqb c newline); [reflexivity|].
    destruct (getlines (c' :: a)) as [|l ls] eqn:E.
    + apply getlines_nil_inv in E; discriminate.
    + reflexivity.
Qed.

(** No line holds a line break. *)
Lemma getlines_lack_newline (s : text) :
  Forall (fun line => lacks newline line = true) (getlines s).
Proof.
  induction s as [|c s IH]; simpl; [constructor|].
  change (Ascii.eqb c (ascii_of_nat 10)) with (Ascii.eqb c newline).
  destruct (Ascii.eqb c newline) eqn:E.
  - constructor; [reflexivity | exact IH].
  - destruct (getlines s) as [|l ls].
    + constructor; [simpl | constructor].
      change (Ascii.eqb c (ascii_of_nat 10)) with (Ascii.eqb c newline).
      rewrite E; reflexivity.
    + inversion IH; subst; constructor; [simpl | assumption].
      change (Ascii.eqb c (ascii_of_nat 10)) with (Ascii.eqb c newline).
      rewrite E; simpl; assumption.
Qed.

(** ** Numerals *)

Lemma fold_decimal_app (ds : text) (c : ascii) (a : Z) :
  fold_left (fun acc c => 10 * acc + digit_val c) (ds ++ [c]) a =
  10 * fold_left (fun acc c => 10 * acc + digit_val c) ds a + digit_val c.
Proof. rewrite fold_left_app; reflexivity. Qed.

Lemma digits_value_run (ds tail : text) (a : Z) :
  forallb is_digit ds = true -> stops tail = true ->
  digits_value a (ds ++ tail) =
  fold_left (fun acc c => 10 * acc + digit_val c) ds a.
Proof.
  revert a; induction ds as [|c ds IH]; simpl; intros a Hd Ht.
  - destruct tail as [|c t]; simpl in *; [reflexivity|].
    apply negb_true_iff in Ht; rewrite Ht; reflexivity.
  - apply andb_true_iff in Hd as [Hc Hd]; rewrite Hc; apply IH; assumption.
Qed.

Lemma put_digits_shape (fuel : nat) :
  forall (n : Z) (acc : text),
    0 <= n < 10 ^ Z.of_nat fuel ->
    exists pre,
      put_digits fuel n acc = pre ++ acc /\
      forallb is_digit pre = true /\
      (fuel <> O -> pre <> []) /\
      forall a, fold_left (fun acc c => 10 * acc + digit_val c) pre a =
                a * 10 ^ Z.of_nat (length pre) + n.
Proof.
  induction fuel as [|fuel IH]; intros n acc Hn.
  - change (10 ^ Z.of_nat 0) with 1 in Hn.
    exists []; repeat split; try congruence.
    intros a; cbn [fold_left length]; change (10 ^ Z.of_nat 0) with 1; lia.
  - cbn [put_digits].
    assert (0 <= n mod 10 < 10) as Hm by (apply Z.mod_pos_bound; lia).
    destruct (digit_char_spec _ Hm) as [Hd Hv].
    destruct (n <? 10) eqn:E.
    + apply Z.ltb_lt in E.
      exists [digit_char (n mod 10)].
      split; [reflexivity|].
      split; [cbn [forallb]; rewrite Hd; reflexivity|].
      split; [discriminate|].
      intros a; cbn [fold_left length]; rewrite Hv.
      change (10 ^ Z.of_nat 1) with 10.
      rewrite Z.mod_small by lia; lia.
    + apply Z.ltb_ge in E.
      rewrite Nat2Z.inj_succ, Z.pow_succ_r in Hn by lia.
      destruct (IH (n / 10) (digit_char (n mod 10) :: acc)) as (pre & E1 & E2 & _ & E4).
      { split; [apply Z.div_pos; lia | apply Z.div_lt_upper_bound; lia]. }
      exists (pre ++ [digit_char (n mod 10)]).
      rewrite E1, <- app_assoc.
      split; [reflexivity|].
      split; [rewrite forallb_app, E2; cbn [forallb]; rewrite Hd; reflexivity|].
      split; [intros _ H; apply app_eq_nil in H as [_ H]; discriminate|].
      intros a; rewrite fold_decimal_app, E4, Hv, length_app; cbn [length].
        rewrite Nat2Z.inj_add, Z.pow_add_r by lia.
        change (10 ^ Z.of_nat 1) with 10.
        pose proof (Z.div_mod n 10); lia.
Qed.

(** The digits [out << n] prints for a magnitude below ten thousand
    million: a non-empty digit string whose value is [n]. *)
Lemma put_digits_decimal (n : Z) :
  0 <= n < 10 ^ 10 ->
  exists c ds,
    put_digits 10 n [] = c :: ds /\ forallb is_digit (c :: ds) = true /\
    decimal (c :: ds) = n.
Proof.
  intros Hn.
  destruct (put_digits_shape 10 n []) as (pre & E1 & E2 & E3 & E4);
    [exact Hn|].
  rewrite app_nil_r in E1.
  destruct pre as [|c ds]; [exfalso; apply E3; [discriminate | reflexivity]|].
  exists c, ds; repeat split; try assumption.
  unfold decimal; rewrite E4; lia.
Qed.

Lemma saturate_in_int (z : Z) : in_int z -> saturate z = z.
Proof.
  unfold in_int, saturate, INT_MIN, INT_MAX; intros H.
  destruct (z <? -2147483648) eqn:E1; [apply Z.ltb_lt in E1; lia|].
  destruct (2147483647 <? z) eqn:E2; [apply Z.ltb_lt in E2; lia|].
  reflexivity.
Qed.

Lemma saturate_is_int (z : Z) : in_int (saturate z).
Proof.
  unfold in_int, saturate, INT_MIN, INT_MAX.
  destruct (z <? -2147483648) eqn:E1; [lia|].
  destruct (2147483647 <? z) eqn:E2; [lia|].
  apply Z.ltb_ge in E1, E2; lia.
Qed.

Lemma to_int_is_int (z : Z) : in_int (to_int z).
Proof.
  unfold in_int, to_int, INT_MIN, INT_MAX.
  pose proof (Z.mod_pos_bound (z + 2147483648) 4294967296); lia.
Qed.

(** [put_int] prints an optional minus sign and then digits only. *)
Lemma put_int_shape (n : Z) :
  in_int n ->
  exists c ds,
    put_int n = (if n <? 0 then ["-"%char] else []) ++ c :: ds /\
    forallb is_digit (c :: ds) = true /\
    decimal (c :: ds) = Z.abs n.
Proof.
  unfold in_int, INT_MIN, INT_MAX, put_int; intros H.
  destruct (n <? 0) eqn:E.
  - apply Z.ltb_lt in E.
    destruct (put_digits_decimal (- n)) as (c & ds & E1 & E2 & E3); [lia|].
    exists c, ds; rewrite E1, E3; repeat split; try assumption; lia.
  - apply Z.ltb_ge in E.
    destruct (put_digits_decimal n) as (c & ds & E1 & E2 & E3); [lia|].
    exists c, ds; rewrite E1, E3; repeat split; try assumption; lia.
Qed.

Lemma forallb_digit_lacks (d : ascii) (ds : text) :
  is_digit d = false -> forallb is_digit ds = true -> lacks d ds = true.
Proof.
  intros Hd; induction ds as [|c ds IH]; simpl; intros H; [reflexivity|].
  apply andb_true_iff in H as [Hc Hs]; rewrite (IH Hs), andb_true_r.
  apply negb_true_iff; destruct (Ascii.eqb c d) eqn:E; [|reflexivity].
  apply Ascii.eqb_eq in E; congruence.
Qed.

Lemma put_int_lacks (d : ascii) (n : Z) :
  in_int n -> is_digit d = false -> Ascii.eqb "-"%char d = false ->
  lacks d (put_int n) = true.
Proof.
  intros Hn Hd Hm.
  destruct (put_int_shape n Hn) as (c & ds & E1 & E2 & _); rewrite E1.
  rewrite lacks_app, (forallb_digit_lacks d (c :: ds) Hd E2), andb_true_r.
  destruct (n <? 0); [|reflexivity].
  unfold lacks; cbn [forallb]; rewrite Hm; reflexivity.
Qed.

(** [num_get] on a sign, a run of digits and anything that is not a
    digit after them. *)
Lemma num_get_numeral (sign ds tail : text) :
  is_sign sign = true -> ds <> [] -> forallb is_digit ds = true ->
  stops tail = true ->
  num_get (sign ++ ds ++ tail) = saturate (signed sign (decimal ds)).
Proof.
  intros Hs Hne Hd Ht.
  destruct ds as [|c ds]; [congruence|]; clear Hne.
  pose proof Hd as Hd'; simpl in Hd'; apply andb_true_iff in Hd' as [Hc _].
  destruct (digit_not_special c Hc) as (_ & _ & _ & Hm & Hp).
  pose proof (digits_value_run (c :: ds) tail 0 Hd Ht) as V.
  fold (decimal (c :: ds)) in V.
  unfold is_sign in Hs.
  apply orb_true_iff in Hs as [Hs | Hs]; [apply orb_true_iff in Hs as [Hs | Hs]|];
    apply text_eqb_eq in Hs; subst sign.
  - change ([] ++ (c :: ds) ++ tail) with (c :: ds ++ tail).
    unfold num_get; rewrite Hm, Hp, Hc.
    change (c :: ds ++ tail) with ((c :: ds) ++ tail); rewrite V; reflexivity.
  - change (txt "+" ++ (c :: ds) ++ tail) with ("+"%char :: c :: ds ++ tail).
    unfold num_get; simpl Ascii.eqb; cbv iota; rewrite Hc.
    change (c :: ds ++ tail) with ((c :: ds) ++ tail); rewrite V; reflexivity.
  - change (txt "-" ++ (c :: ds) ++ tail) with ("-"%char :: c :: ds ++ tail).
    unfold num_get; simpl Ascii.eqb; cbv iota; rewrite Hc.
    change (c :: ds ++ tail) with ((c :: ds) ++ tail); rewrite V; reflexivity.
Qed.

Lemma skipws_spaces (ws s : text) :
  forallb isspace ws = true -> skipws (ws ++ s) = skipws s.
Proof.
  induction ws as [|c ws IH]; simpl; intros H; [reflexivity|].
  apply andb_true_iff in H as [Hc Hs]; rewrite Hc; apply IH; assumption.
Qed.

Lemma skipws_stay (c : ascii) (s : text) :
  isspace c = false -> skipws (c :: s) = c :: s.
Proof. intros H; simpl; rewrite H; reflexivity. Qed.

(** Reading back what [out << n] printed. *)
Lemma extract_put_int (junk n : Z) :
  in_int n -> extract_int junk (Some (put_int n)) = n.
Proof.
  intros Hn.
  destruct (put_int_shape n Hn) as (c & ds & E1 & E2 & E3).
  pose proof E2 as Hc; simpl in Hc; apply andb_true_iff in Hc as [Hc _].
  destruct (digit_not_special c Hc) as (_ & _ & Hsp & _ & _).
  unfold extract_int; rewrite E1.
  destruct (n <? 0) eqn:E.
  - apply Z.ltb_lt in E.
    change (["-"%char] ++ c :: ds) with ("-"%char :: c :: ds).
    rewrite skipws_stay by reflexivity.
    pose proof (num_get_numeral (txt "-") (c :: ds) [] eq_refl) as N.
    rewrite app_nil_r in N.
    change (txt "-" ++ c :: ds) with ("-"%char :: c :: ds) in N.
    rewrite N by (try discriminate; auto).
    unfold signed; simpl text_eqb; rewrite E3.
    rewrite saturate_in_int; [lia | replace (- Z.abs n) with n by lia; exact Hn].
  - apply Z.ltb_ge in E.
    change ([] ++ c :: ds) with (c :: ds).
    rewrite skipws_stay by exact Hsp.
    pose proof (num_get_numeral [] (c :: ds) [] eq_refl) as N.
    rewrite app_nil_r in N.
    change ([] ++ c :: ds) with (c :: ds) in N.
    rewrite N by (try discriminate; auto).
    unfold signed; simpl text_eqb; rewrite E3.
    rewrite saturate_in_int; [lia | replace (Z.abs n) with n by lia; exact Hn].
Qed.

(** ** Records and lines *)

Lemma plain_lacks (name : text) :
  plain name = true -> lacks comma name = true /\ lacks newline name = true.
Proof. unfold plain; intros H; apply andb_true_iff in H; exact H. Qed.

Lemma num_get_is_int (s : text) : in_int (num_get s).
Proof.
  assert (in_int 0) as Z0 by (unfold in_int, INT_MIN, INT_MAX; lia).
  unfold num_get.
  destruct s as [|c rest]; [exact Z0|].
  destruct (Ascii.eqb c "-"%char); [|destruct (Ascii.eqb c "+"%char)].
  - destruct rest as [|c' r]; [exact Z0|].
    destruct (is_digit c'); [apply saturate_is_int | exact Z0].
  - destruct rest as [|c' r]; [exact Z0|].
    destruct (is_digit c'); [apply saturate_is_int | exact Z0].
  - destruct (is_digit c); [apply saturate_is_int | exact Z0].
Qed.

Lemma extract_int_is_int (junk : Z) (st : option text) :
  in_int (extract_int junk st).
Proof.
  unfold extract_int.
  destruct st as [rest|]; [|apply to_int_is_int].
  destruct (skipws rest); [apply to_int_is_int | apply num_get_is_int].
Qed.

(** Whatever the line, the record parsed from it has a name without a
    comma and an [int] goal count; a line without line break gives a
    plain name. *)
Lemma parse_line_storable (junk : Z) (line : text) :
  lacks newline line = true -> storable (parse_line junk line).
Proof.
  intros H; unfold parse_line, storable, plain.
  pose proof (getline_lacks_delim comma line) as A.
  pose proof (getline_lacks_other comma newline line H) as B.
  destruct (getline comma line) as [name ss]; simpl fst in *; simpl snd.
  split; [rewrite A, B; reflexivity | apply extract_int_is_int].
Qed.

Lemma read_players_storable (ind : nat -> Z) (lines : list text) :
  Forall (fun line => lacks newline line = true) lines ->
  forall i, Forall storable (read_players ind i lines).
Proof.
  induction 1 as [|line more H _ IH]; intros i; cbn [read_players].
  - constructor.
  - destruct (empty line); [apply IH|].
    constructor; [apply parse_line_storable; exact H | apply IH].
Qed.

Lemma read_players_app (ind : nat -> Z) (l1 l2 : list text) :
  forall i,
    read_players ind i (l1 ++ l2) =
    read_players ind i l1 ++ read_players ind (i + length l1) l2.
Proof.
  induction l1 as [|line l1 IH]; intros i.
  - cbn [app read_players length]; rewrite Nat.add_0_r; reflexivity.
  - cbn [app read_players length].
    rewrite IH, Nat.add_succ_r; cbn [Nat.add].
    destruct (empty line); reflexivity.
Qed.

(** Reading back one written line. *)
Lemma parse_put (junk : Z) (name : text) (goals : Z) :
  lacks comma name = true -> in_int goals ->
  parse_line junk (name ++ comma :: put_int goals) = (name, goals).
Proof.
  intros Hn Hg; unfold parse_line.
  rewrite (getline_delim comma name _ Hn), (extract_put_int junk goals Hg).
  reflexivity.
Qed.

Lemma put_record_line (p : record) (rest : text) :
  storable p ->
  getlines (put_record p ++ rest) =
  (fst p ++ comma :: put_int (snd p)) :: getlines rest.
Proof.
  intros [Hp Hg]; apply plain_lacks in Hp as [_ Hnl].
  unfold put_record.
  replace ((fst p ++ comma :: put_int (snd p) ++ [newline]) ++ rest)
    with ((fst p ++ comma :: put_int (snd p)) ++ newline :: rest)
    by (rewrite <- !app_assoc; cbn [app]; rewrite <- app_assoc; reflexivity).
  apply getlines_line.
  rewrite lacks_app, Hnl; cbn [andb].
  change (comma :: put_int (snd p)) with ([comma] ++ put_int (snd p)).
  rewrite lacks_app, (put_int_lacks newline _ Hg); reflexivity.
Qed.

(** Reading back what [put_players] wrote, whatever follows it. *)
Lemma read_put_players (ind : nat -> Z) (rs : list record) (rest : text) :
  Forall storable rs ->
  forall i,
    read_players ind i (getlines (put_players rs ++ rest)) =
    rs ++ read_players ind (i + length rs) (getlines rest).
Proof.
  induction 1 as [|p rs Hp _ IH]; intros i.
  - cbn [put_players app length]; rewrite Nat.add_0_r; reflexivity.
  - cbn [put_players length].
    rewrite <- app_assoc, (put_record_line p _ Hp).
    cbn [read_players].
    replace (empty (fst p ++ comma :: put_int (snd p))) with false
      by (destruct (fst p); reflexivity).
    destruct Hp as [Hn Hg]; apply plain_lacks in Hn as [Hc _].
    rewrite (parse_put _ _ _ Hc Hg), IH, Nat.add_succ_r.
    destruct p; reflexivity.
Qed.

(** ** The update loop *)

Lemma update_loop_spec (name : text) (newGoals : Z) (players : list record) :
  forall found,
    update_loop name newGoals players found =
    (map (renew name newGoals) players, found || existsb (named name) players).
Proof.
  induction players as [|p more IH]; intros found; cbn [update_loop map existsb].
  - rewrite orb_false_r; reflexivity.
  - unfold renew at 1, named at 1.
    destruct (text_eqb (fst p) name); rewrite IH; cbn [orb].
    + rewrite orb_true_r; reflexivity.
    + reflexivity.
Qed.

Lemma modify_or_add_spec (name : text) (newGoals : Z) (players : list record) :
  modify_or_add name newGoals players =
  (map (renew name newGoals) players
     ++ (if existsb (named name) players then [] else [(name, newGoals)]),
   existsb (named name) players).
Proof.
  unfold modify_or_add; rewrite update_loop_spec; cbn [orb].
  destruct (existsb (named name) players); cbn [negb];
    [rewrite app_nil_r|]; reflexivity.
Qed.

(** ** The member functions on an existing file *)

Lemma displayPlayers_file (self : Soccer) (ind : nat -> Z) (w : bool)
  (bytes : text) :
  fst (displayPlayers self ind (File true w bytes)) =
  read_players ind 0 (getlines bytes).
Proof. reflexivity. Qed.

Lemma addPlayer_file (self : Soccer) (name : text) (goals : Z) (r : bool)
  (bytes : text) :
  fst (addPlayer self name goals (File r true bytes)) =
  File r true (bytes ++ put_record (name, goals)).
Proof. reflexivity. Qed.

Lemma addPlayers_file (self : Soccer) (rs : list record) (r : bool) :
  forall bytes,
    addPlayers self rs (File r true bytes) =
    File r true (bytes ++ put_players rs).
Proof.
  unfold addPlayers.
  induction rs as [|p rs IH]; intros bytes; cbn [fold_left put_players].
  - rewrite app_nil_r; reflexivity.
  - rewrite addPlayer_file, IH, <- app_assoc.
    destruct p; reflexivity.
Qed.

Lemma updatePlayer_file (self : Soccer) (ind : nat -> Z) (name : text)
  (newGoals : Z) (bytes : text) :
  fst (updatePlayer self ind name newGoals (File true true bytes)) =
  File true true
    (overwrite
       (put_players
          (fst (modify_or_add name newGoals
                  (read_players ind 0 (getlines bytes)))))
       bytes).
Proof.
  unfold updatePlayer; cbn [fopen bytes_of].
  destruct (modify_or_add name newGoals (read_players ind 0 (getlines bytes)));
    reflexivity.
Qed.

Lemma updatePlayer_cout (self : Soccer) (ind : nat -> Z) (name : text)
  (newGoals : Z) (bytes : text) :
  cout (snd (updatePlayer self ind name newGoals (File true true bytes))) =
  if snd (modify_or_add name newGoals (read_players ind 0 (getlines bytes)))
  then updated_message name newGoals
  else not_found_message name.
Proof.
  unfold updatePlayer; cbn [fopen bytes_of].
  destruct (modify_or_add name newGoals (read_players ind 0 (getlines bytes)))
    as [final []]; reflexivity.
Qed.

Lemma overwrite_covering (out old : text) :
  (length old <= length out)%nat -> overwrite out old = out.
Proof.
  intros H; unfold overwrite.
  rewrite skipn_all2 by exact H; apply app_nil_r.
Qed.

Lemma existsb_named_false (name : text) (players : list record) :
  (forall p, In p players -> fst p <> name) ->
  existsb (named name) players = false.
Proof.
  intros H; induction players as [|p more IH]; [reflexivity|].
  cbn [existsb]; unfold named at 1.
  rewrite (text_eqb_neq _ _ (H p (or_introl eq_refl))); cbn [orb].
  apply IH; intros q Hq; apply H; right; exact Hq.
Qed.

Lemma existsb_named_true (name : text) (players : list record) :
  (exists p, In p players /\ fst p = name) ->
  existsb (named name) players = true.
Proof.
  intros (p & Hin & Hp); apply existsb_exists; exists p; split; [exact Hin|].
  unfold named; apply text_eqb_eq; exact Hp.
Qed.

Lemma map_renew_unmatched (name : text) (newGoals : Z) (players : list record) :
  (forall p, In p players -> fst p <> name) ->
  map (renew name newGoals) players = players.
Proof.
  intros H; induction players as [|p more IH]; [reflexivity|].
  cbn [map]; unfold renew at 1.
  rewrite (text_eqb_neq _ _ (H p (or_introl eq_refl))).
  f_equal; apply IH; intros q Hq; apply H; right; exact Hq.
Qed.

Lemma nth_error_renew (name : text) (newGoals : Z) (players : list record)
  (i : nat) (p : record) :
  nth_error players i = Some p ->
  nth_error
    (map (renew name newGoals) players
       ++ (if existsb (named name) players then [] else [(name, newGoals)])) i =
  Some (renew name newGoals p).
Proof.
  intros H.
  rewrite nth_error_app1.
  - rewrite nth_error_map, H; reflexivity.
  - rewrite length_map; apply nth_error_Some; congruence.
Qed.

(** * The claims *)

(** C5. [ensureFileExists], which the constructor runs, is idempotent.
    Constructing the store where no file exists (and one can be created)
    leaves a file holding exactly the three seed records, which
    [displayPlayers] lists as Messi 12, Rapinoe 9, Ronaldo 10; and
    constructing the store on a file that can be read, the seeded one
    included, leaves the file as it is. *)
Theorem ensureFileExists_idempotent :
  (forall self m,
      fst (ensureFileExists self (fst (ensureFileExists self m))) =
      fst (ensureFileExists self m)) /\
  (forall filename,
      snd (construct filename (Missing true)) = File true true seed) /\
  (forall self ind,
      fst (displayPlayers self ind (File true true seed)) =
      [(txt "Messi", 12); (txt "Rapinoe", 9); (txt "Ronaldo", 10)]) /\
  (forall filename w bytes,
      snd (construct filename (File true w bytes)) = File true w bytes) /\
  (forall first second,
      snd (construct second (snd (construct first (Missing true)))) =
      snd (construct first (Missing true))).
Proof.
  split; [intros self [[] | [] [] bytes]; reflexivity|].
  split; [reflexivity|].
  split; [reflexivity|].
  split; reflexivity.
Qed.

(** C8. When the file cannot be opened in the mode the operation asks
    for, [displayPlayers], [addPlayer] and [updatePlayer] each write an
    error message to [cerr] and nothing to [cout], and return with the
    file exactly as it was; [displayPlayers] then lists no record. *)
Theorem open_failure_reported (self : Soccer) (ind : nat -> Z) (name : text)
  (goals : Z) (m : medium) :
  (fopen ios_in m = None ->
   displayPlayers self ind m = ([], could_not_open self "reading")) /\
  (fopen ios_app m = None ->
   addPlayer self name goals m = (m, could_not_open self "writing")) /\
  (fopen ios_in_out m = None ->
   updatePlayer self ind name goals m = (m, could_not_open self "updating")) /\
  (forall purpose,
      cerr (could_not_open self purpose) <> [] /\
      cout (could_not_open self purpose) = []).
Proof.
  split; [intros H; unfold displayPlayers; rewrite H; reflexivity|].
  split; [intros H; unfold addPlayer; rewrite H; reflexivity|].
  split; [intros H; unfold updatePlayer; rewrite H; reflexivity|].
  intros purpose; split; [discriminate | reflexivity].
Qed.

Lemma open_failure_reported_witness :
  displayPlayers league zeros (File false false seed) =
    ([], could_not_open league "reading") /\
  addPlayer league (txt "Pele") 7 (File false false seed) =
    (File false false seed, could_not_open league "writing") /\
  updatePlayer league zeros (txt "Pele") 7 (File false false seed) =
    (File false false seed, could_not_open league "updating").
Proof.
  destruct (open_failure_reported league zeros (txt "Pele") 7
              (File false false seed)) as (A & B & C & _).
  split; [apply A; reflexivity|].
  split; [apply B; reflexivity | apply C; reflexivity].
Defined.

(** C1 (the code departs from it).  [updatePlayer] seeks to offset zero
    and writes the vector, but never shortens the file: where the new
    text is shorter than the old, the old bytes beyond it stay.
    Lowering Rapinoe from 11 to 9 in a one-line file leaves a second,
    empty line behind the entry, so the file is not the written
    sequence; lowering A from 100 to 1 leaves stale bytes that
    [displayPlayers] then lists as a third record. *)
Theorem updatePlayer_keeps_stale_tail :
  (forall ind,
      fst (updatePlayer league ind (txt "Rapinoe") 9
             (File true true (txt "Rapinoe,11" ++ [newline]))) =
      File true true (txt "Rapinoe,9" ++ [newline; newline])) /\
  put_players [(txt "Rapinoe", 9)] = txt "Rapinoe,9" ++ [newline] /\
  (forall ind,
      fst (updatePlayer league ind (txt "A") 1
             (File true true
                (txt "A,100" ++ newline :: txt "B,5" ++ [newline]))) =
      File true true
        (txt "A,1" ++ newline :: txt "B,5" ++ newline :: txt "5" ++ [newline])) /\
  (forall ind,
      fst (displayPlayers league ind
             (File true true
                (txt "A,1" ++ newline :: txt "B,5" ++ newline
                   :: txt "5" ++ [newline]))) =
      [(txt "A", 1); (txt "B", 5); (txt "5", to_int (ind 2%nat))]).
Proof.
  split; [intros ind; vm_compute; reflexivity|].
  split; [vm_compute; reflexivity|].
  split; [intros ind; vm_compute; reflexivity|].
  intros ind; reflexivity.
Qed.

(** ** Appending and listing *)

(** What is listed after text made of written records is appended to a
    file whose last line is complete. *)
Lemma list_after_append (ind : nat -> Z) (bytes : text) (rs : list record) :
  Forall storable rs -> line_terminated bytes = true ->
  read_players ind 0 (getlines (bytes ++ put_players rs)) =
  read_players ind 0 (getlines bytes) ++ rs.
Proof.
  intros Hrs Hb.
  rewrite (getlines_app _ _ Hb), read_players_app.
  f_equal.
  pose proof (read_put_players ind rs [] Hrs) as R.
  rewrite app_nil_r in R; rewrite R.
  cbn [getlines read_players]; apply app_nil_r.
Qed.

(** C3, as the code has it.  Records whose names hold neither a comma
    nor a line break and whose goal counts are [int]s, appended one by
    one with [addPlayer] to a file that is empty or ends with a line
    break, are listed by [displayPlayers] after the records the file
    already listed, in the order they were appended and with the same
    names and goal counts. *)
Theorem append_list_roundtrip (self : Soccer) (ind : nat -> Z)
  (rs : list record) (bytes : text) :
  Forall storable rs -> line_terminated bytes = true ->
  fst (displayPlayers self ind (addPlayers self rs (File true true bytes))) =
  fst (displayPlayers self ind (File true true bytes)) ++ rs.
Proof.
  intros Hrs Hb.
  rewrite addPlayers_file, !displayPlayers_file.
  apply list_after_append; assumption.
Qed.

Lemma append_list_roundtrip_witness :
  fst (displayPlayers league zeros
         (addPlayers league [(txt "Alex Morgan", 8); (txt "Pele", 77)]
            (File true true seed))) =
  fst (displayPlayers league zeros (File true true seed))
    ++ [(txt "Alex Morgan", 8); (txt "Pele", 77)].
Proof.
  apply append_list_roundtrip.
  - repeat constructor; unfold INT_MIN, INT_MAX; cbn [snd]; lia.
  - reflexivity.
Defined.

(** C3 as stated fails: a name may hold the delimiter, which the file
    format does not escape.  Appending ("Smith, John", 3) to an empty
    file and listing gives the one record ("Smith", 0). *)
Lemma append_list_roundtrip_breaks_on_comma :
  fst (displayPlayers league zeros
         (addPlayers league [(txt "Smith, John", 3)] (File true true []))) =
  [(txt "Smith", 0)] /\
  fst (displayPlayers league zeros
         (addPlayers league [(txt "Smith, John", 3)] (File true true []))) <>
  [(txt "Smith, John", 3)].
Proof.
  split; [vm_compute; reflexivity | vm_compute; discriminate].
Qed.

(** C10, as the code has it.  For every [int] goal count, negative ones
    included, what [out << goals] prints is read back by [ss >> goals]
    as the same number; and for a name that holds neither a comma nor a
    line break, [addPlayer] on a file that is empty or ends with a line
    break followed by [displayPlayers] lists the old records and then
    (name, goals), the goal count exactly as given. *)
Theorem addPlayer_goals_roundtrip (self : Soccer) (ind : nat -> Z)
  (name : text) (goals : Z) (bytes : text) :
  in_int goals ->
  (forall junk, extract_int junk (Some (put_int goals)) = goals) /\
  (plain name = true -> line_terminated bytes = true ->
   fst (displayPlayers self ind
          (fst (addPlayer self name goals (File true true bytes)))) =
   fst (displayPlayers self ind (File true true bytes)) ++ [(name, goals)]).
Proof.
  intros Hg; split; [intros junk; apply extract_put_int; exact Hg|].
  intros Hn Hb.
  rewrite addPlayer_file, !displayPlayers_file.
  pose proof (list_after_append ind bytes [(name, goals)]) as L.
  cbn [put_players] in L; rewrite app_nil_r in L.
  apply L; [|exact Hb].
  constructor; [split; assumption | constructor].
Qed.

Lemma addPlayer_goals_roundtrip_witness :
  extract_int 0 (Some (put_int (-2147483648))) = -2147483648 /\
  fst (displayPlayers league zeros
         (fst (addPlayer league (txt "Own Goal") (-3) (File true true seed)))) =
  fst (displayPlayers league zeros (File true true seed))
    ++ [(txt "Own Goal", -3)].
Proof.
  split.
  - apply (addPlayer_goals_roundtrip league zeros [] (-2147483648) []).
    unfold in_int, INT_MIN, INT_MAX; lia.
  - apply (addPlayer_goals_roundtrip league zeros (txt "Own Goal") (-3) seed).
    + unfold in_int, INT_MIN, INT_MAX; lia.
    + reflexivity.
    + reflexivity.
Defined.

(** C10 as stated fails for a name that holds the delimiter: after
    [addPlayer] of ("Silva, Marta", -2) on the seeded file, no listed
    record has the goal count -2; the record added lists as
    ("Silva", 0). *)
Lemma addPlayer_goals_lost_after_comma :
  fst (displayPlayers league zeros
         (fst (addPlayer league (txt "Silva, Marta") (-2) (File true true seed)))) =
  [(txt "Messi", 12); (txt "Rapinoe", 9); (txt "Ronaldo", 10); (txt "Silva", 0)] /\
  ~ In (-2)
      (map snd
         (fst (displayPlayers league zeros
                 (fst (addPlayer league (txt "Silva, Marta") (-2)
                         (File true true seed)))))).
Proof.
  split; [vm_compute; reflexivity|].
  vm_compute; intros [H | [H | [H | [H | []]]]]; discriminate H.
Qed.

(** ** Inserting through [updatePlayer] *)

Lemma read_players_of_file_storable (ind : nat -> Z) (bytes : text) :
  Forall storable (read_players ind 0 (getlines bytes)).
Proof. apply read_players_storable, getlines_lack_newline. Qed.

(** C4, as the code has it.  When no record read from the file has the
    target name, step 2 leaves the records as read and puts
    (name, newGoals) after them, and the message is the one for a new
    player.  If moreover the name holds neither a comma nor a line
    break, the goal count is an [int] and the rewritten text is at
    least as long as the file was, [displayPlayers] afterwards lists
    the records read followed by the new record, which is last. *)
Theorem updatePlayer_inserts_when_absent (self : Soccer) (ind : nat -> Z)
  (name : text) (newGoals : Z) (bytes : text) :
  (forall p, In p (read_players ind 0 (getlines bytes)) -> fst p <> name) ->
  modify_or_add name newGoals (read_players ind 0 (getlines bytes)) =
  (read_players ind 0 (getlines bytes) ++ [(name, newGoals)], false) /\
  cout (snd (updatePlayer self ind name newGoals (File true true bytes))) =
  not_found_message name /\
  (plain name = true -> in_int newGoals ->
   (length bytes <=
    length (put_players
              (read_players ind 0 (getlines bytes) ++ [(name, newGoals)])))%nat ->
   forall ind',
     fst (displayPlayers self ind'
            (fst (updatePlayer self ind name newGoals (File true true bytes)))) =
     read_players ind 0 (getlines bytes) ++ [(name, newGoals)]).
Proof.
  intros Habsent.
  assert (modify_or_add name newGoals (read_players ind 0 (getlines bytes)) =
          (read_players ind 0 (getlines bytes) ++ [(name, newGoals)], false))
    as M.
  { rewrite modify_or_add_spec, (existsb_named_false _ _ Habsent).
    rewrite (map_renew_unmatched _ _ _ Habsent); reflexivity. }
  split; [exact M|].
  split; [rewrite updatePlayer_cout, M; reflexivity|].
  intros Hn Hg Hlen ind'.
  rewrite updatePlayer_file, M; cbn [fst].
  rewrite (overwrite_covering _ _ Hlen), displayPlayers_file.
  pose proof (read_put_players ind'
                (read_players ind 0 (getlines bytes) ++ [(name, newGoals)]) [])
    as R.
  rewrite app_nil_r in R; rewrite R.
  - cbn [getlines read_players]; apply app_nil_r.
  - apply Forall_app; split; [apply read_players_of_file_storable|].
    constructor; [split; assumption | constructor].
Qed.

Lemma updatePlayer_inserts_when_absent_witness :
  fst (displayPlayers league zeros
         (fst (updatePlayer league zeros (txt "Alex Morgan") 8
                 (File true true seed)))) =
  read_players zeros 0 (getlines seed) ++ [(txt "Alex Morgan", 8)].
Proof.
  destruct (updatePlayer_inserts_when_absent league zeros (txt "Alex Morgan") 8
              seed) as (_ & _ & A).
  - intros p [H | [H | [H | []]]]; subst p; discriminate.
  - apply A.
    + reflexivity.
    + unfold in_int, INT_MIN, INT_MAX; lia.
    + vm_compute; lia.
Defined.

(** C4 as stated fails for a target name that holds the delimiter.  On
    a file with the one record Messi,12, no record is named
    "Morgan, Alex"; after [updatePlayer] with that name and 8 goals the
    last record listed is ("Morgan", 0). *)
Lemma updatePlayer_insert_garbled_by_comma :
  (forall p,
      In p (fst (displayPlayers league zeros
                   (File true true (txt "Messi,12" ++ [newline])))) ->
      fst p <> txt "Morgan, Alex") /\
  fst (displayPlayers league zeros
         (fst (updatePlayer league zeros (txt "Morgan, Alex") 8
                 (File true true (txt "Messi,12" ++ [newline]))))) =
  [(txt "Messi", 12); (txt "Morgan", 0)] /\
  last
    (fst (displayPlayers league zeros
            (fst (updatePlayer league zeros (txt "Morgan, Alex") 8
                    (File true true (txt "Messi,12" ++ [newline])))))) ([], 0) <>
  (txt "Morgan, Alex", 8).
Proof.
  split; [intros p [H | []]; subst p; discriminate|].
  split; [vm_compute; reflexivity | vm_compute; discriminate].
Qed.

(** ** Blank lines *)

Lemma read_players_filter (ind : nat -> Z) (lines : list text) :
  forall i,
    read_players ind i lines =
    map (fun il => parse_line (ind (fst il)) (snd il))
      (filter (fun il => negb (empty (snd il)))
         (combine (seq i (length lines)) lines)).
Proof.
  induction lines as [|line more IH]; intros i; [reflexivity|].
  cbn [read_players length seq combine filter snd].
  rewrite IH; destruct (empty line); reflexivity.
Qed.

(** The names listed depend on the non-empty lines only. *)
Lemma read_players_names (ind : nat -> Z) (lines : list text) :
  forall i,
    map fst (read_players ind i lines) =
    map (fun line => fst (getline comma line))
      (filter (fun line => negb (empty line)) lines).
Proof.
  induction lines as [|line more IH]; intros i; [reflexivity|].
  cbn [read_players filter].
  destruct (empty line); cbn [negb map]; rewrite IH; [reflexivity|].
  unfold parse_line; destruct (getline comma line); reflexivity.
Qed.

(** C6, as the code has it.  [displayPlayers] goes through the lines of
    the file in order and skips the lines that hold no character at
    all: the records listed are those parsed from the non-empty lines,
    in file order, a line of white space being parsed like any other.
    Putting an empty line between complete lines changes no listed
    name. *)
Theorem displayPlayers_skips_empty_lines (self : Soccer) (ind : nat -> Z)
  (w : bool) (bytes : text) :
  fst (displayPlayers self ind (File true w bytes)) =
  map (fun il => parse_line (ind (fst il)) (snd il))
    (filter (fun il => negb (empty (snd il)))
       (combine (seq 0 (length (getlines bytes))) (getlines bytes))) /\
  (forall a b,
      bytes = a ++ newline :: b -> line_terminated a = true ->
      map fst (fst (displayPlayers self ind (File true w bytes))) =
      map fst (fst (displayPlayers self ind (File true w (a ++ b))))).
Proof.
  split; [rewrite displayPlayers_file; apply read_players_filter|].
  intros a b -> Ha.
  rewrite !displayPlayers_file, !read_players_names.
  rewrite !(getlines_app _ _ Ha).
  change (getlines (newline :: b)) with ([] :: getlines b).
  rewrite !filter_app; reflexivity.
Qed.

Lemma displayPlayers_skips_empty_lines_witness :
  map fst
    (fst (displayPlayers league zeros
            (File true true
               (txt "Messi,12" ++ newline :: newline :: txt "Rapinoe,9"
                  ++ [newline])))) =
  map fst
    (fst (displayPlayers league zeros
            (File true true
               (txt "Messi,12" ++ newline :: txt "Rapinoe,9" ++ [newline])))).
Proof.
  destruct (displayPlayers_skips_empty_lines league zeros true
              (txt "Messi,12" ++ newline :: newline :: txt "Rapinoe,9"
                 ++ [newline])) as [_ A].
  apply (A (txt "Messi,12" ++ [newline]) (txt "Rapinoe,9" ++ [newline]));
    reflexivity.
Defined.

(** C6 as stated fails: nothing is trimmed.  A line made of one space
    between two valid lines is listed as a record of its own, named
    " ", with whatever [goals] held. *)
Lemma displayPlayers_lists_whitespace_line :
  fst (displayPlayers league zeros
         (File true true
            (txt "Messi,12" ++ newline :: txt " " ++ newline
               :: txt "Rapinoe,9" ++ [newline]))) =
  [(txt "Messi", 12); (txt " ", 0); (txt "Rapinoe", 9)] /\
  fst (displayPlayers league zeros
         (File true true
            (txt "Messi,12" ++ newline :: txt " " ++ newline
               :: txt "Rapinoe,9" ++ [newline]))) <>
  [(txt "Messi", 12); (txt "Rapinoe", 9)].
Proof.
  split; [vm_compute; reflexivity | vm_compute; discriminate].
Qed.

(** ** The line parser *)

Lemma num_get_unnumeric (word : text) :
  numeral_start word = false -> num_get word = 0.
Proof.
  unfold numeral_start, num_get.
  destruct word as [|c rest]; [reflexivity|].
  destruct (Ascii.eqb c "-"%char); cbn [orb].
  - destruct rest as [|c' r]; [reflexivity|].
    cbn [stops]; rewrite negb_involutive; intros ->; reflexivity.
  - destruct (Ascii.eqb c "+"%char).
    + destruct rest as [|c' r]; [reflexivity|].
      cbn [stops]; rewrite negb_involutive; intros ->; reflexivity.
    + intros ->; reflexivity.
Qed.

Lemma is_sign_unspaced (sign rest : text) (c : ascii) :
  is_sign sign = true -> is_digit c = true ->
  skipws (sign ++ c :: rest) = sign ++ c :: rest.
Proof.
  intros Hs Hc.
  destruct (digit_not_special c Hc) as (_ & _ & Hsp & _ & _).
  unfold is_sign in Hs.
  apply orb_true_iff in Hs as [Hs | Hs]; [apply orb_true_iff in Hs as [Hs | Hs]|];
    apply text_eqb_eq in Hs; subst sign.
  - apply skipws_stay; exact Hsp.
  - apply skipws_stay; reflexivity.
  - apply skipws_stay; reflexivity.
Qed.

(** After white space, [ss >> goals] converts what it finds. *)
Lemma extract_int_after_spaces (junk : Z) (ws s : text) :
  forallb isspace ws = true -> skipws s = s -> s <> [] ->
  extract_int junk (Some (ws ++ s)) = num_get s.
Proof.
  intros Hws Hs Hne; unfold extract_int.
  rewrite (skipws_spaces _ _ Hws), Hs.
  destruct s; [congruence | reflexivity].
Qed.

(** Every text is white space followed by what [skipws] leaves, and
    what it leaves does not start with white space. *)
Lemma skipws_split (s : text) :
  exists ws, s = ws ++ skipws s /\ forallb isspace ws = true.
Proof.
  induction s as [|c s (ws & E & H)]; [exists []; split; reflexivity|].
  cbn [skipws]; destruct (isspace c) eqn:Hc.
  - exists (c :: ws); cbn [app forallb]; rewrite Hc, H, <- E.
    split; reflexivity.
  - exists []; split; reflexivity.
Qed.

Lemma skipws_head (s : text) :
  match skipws s with
  | [] => True
  | c :: _ => isspace c = false
  end.
Proof.
  induction s as [|c s IH]; [exact I|].
  cbn [skipws]; destruct (isspace c) eqn:Hc; [exact IH | exact Hc].
Qed.

(** Every text is a run of digits followed by text that stops it. *)
Lemma span_digits (s : text) :
  exists ds tail,
    s = ds ++ tail /\ forallb is_digit ds = true /\ stops tail = true /\
    (stops s = false -> ds <> []).
Proof.
  induction s as [|c s (ds & tail & E & Hd & Ht & _)].
  - exists [], []; repeat split; discriminate.
  - destruct (is_digit c) eqn:Hc.
    + exists (c :: ds), tail; cbn [app forallb]; rewrite Hc, Hd, <- E.
      repeat split; [exact Ht | discriminate].
    + exists [], (c :: s); cbn [app stops]; rewrite Hc.
      repeat split; discriminate.
Qed.

(** The shapes a text after the delimiter can have, as [ss >> goals]
    tells them apart: white space only; white space, a numeral and a
    rest; white space and text that is no numeral. *)
Lemma remainder_shapes (rest : text) :
  exists ws,
    forallb isspace ws = true /\
    (rest = ws \/
     (exists sign ds tail,
         rest = ws ++ sign ++ ds ++ tail /\ is_sign sign = true /\
         ds <> [] /\ forallb is_digit ds = true /\ stops tail = true) \/
     (exists word, rest = ws ++ word /\ unnumeric word = true)).
Proof.
  destruct (skipws_split rest) as (ws & E & Hws).
  pose proof (skipws_head rest) as Hhead.
  exists ws; split; [exact Hws|].
  destruct (skipws rest) as [|c r]; [left; rewrite E; apply app_nil_r|].
  right.
  destruct (numeral_start (c :: r)) eqn:Hnum.
  - left; unfold numeral_start in Hnum.
    destruct (Ascii.eqb c "-"%char) eqn:Hm; cbn [orb] in Hnum.
    { apply Ascii.eqb_eq in Hm; subst c.
      destruct (span_digits r) as (ds & tail & Er & Hd & Ht & Hne).
      exists (txt "-"), ds, tail; rewrite E, Er.
      repeat split; try assumption.
      apply Hne; apply negb_true_iff; exact Hnum. }
    destruct (Ascii.eqb c "+"%char) eqn:Hp.
    { apply Ascii.eqb_eq in Hp; subst c.
      destruct (span_digits r) as (ds & tail & Er & Hd & Ht & Hne).
      exists (txt "+"), ds, tail; rewrite E, Er.
      repeat split; try assumption.
      apply Hne; apply negb_true_iff; exact Hnum. }
    destruct (span_digits (c :: r)) as (ds & tail & Er & Hd & Ht & Hne).
    exists [], ds, tail; rewrite E, Er.
    repeat split; try assumption.
    apply Hne; cbn [stops]; rewrite Hnum; reflexivity.
  - right; exists (c :: r); split; [exact E|].
    unfold unnumeric; rewrite Hhead, Hnum; reflexivity.
Qed.

(** C7.  For every line, [parse_line] gives a record (no error): the
    name is the text before the first comma, or the whole line when it
    has no comma.  After the comma, optional white space, an optional
    sign and a non-empty run of digits give the goal count: the signed
    value of the digits when it is an [int], whatever follows the
    digits being ignored.  When no number can be read the goal count is
    a default or is left as it was: [INT_MAX] or [INT_MIN] for digits
    whose value is no [int], 0 for text that is no numeral, and the
    uninitialised [goals] when the line has no comma or only white
    space after it.  Every line has one of these shapes. *)
Theorem parse_line_contract (junk : Z) :
  (forall line,
      lacks comma line = true -> parse_line junk line = (line, to_int junk)) /\
  (forall name rest,
      lacks comma name = true ->
      fst (parse_line junk (name ++ comma :: rest)) = name) /\
  (forall name ws sign ds tail,
      lacks comma name = true -> forallb isspace ws = true ->
      is_sign sign = true -> ds <> [] -> forallb is_digit ds = true ->
      stops tail = true ->
      snd (parse_line junk (name ++ comma :: ws ++ sign ++ ds ++ tail)) =
        saturate (signed sign (decimal ds)) /\
      (in_int (signed sign (decimal ds)) ->
       snd (parse_line junk (name ++ comma :: ws ++ sign ++ ds ++ tail)) =
         signed sign (decimal ds))) /\
  (forall name ws,
      lacks comma name = true -> forallb isspace ws = true ->
      snd (parse_line junk (name ++ comma :: ws)) = to_int junk) /\
  (forall name ws word,
      lacks comma name = true -> forallb isspace ws = true ->
      unnumeric word = true ->
      snd (parse_line junk (name ++ comma :: ws ++ word)) = 0) /\
  (forall line,
      lacks comma line = true \/
      exists name rest ws,
        line = name ++ comma :: rest /\ lacks comma name = true /\
        forallb isspace ws = true /\
        (rest = ws \/
         (exists sign ds tail,
             rest = ws ++ sign ++ ds ++ tail /\ is_sign sign = true /\
             ds <> [] /\ forallb is_digit ds = true /\ stops tail = true) \/
         (exists word, rest = ws ++ word /\ unnumeric word = true))).
Proof.
  split; [|split; [|split; [|split; [|split]]]].
  - intros line Hl; unfold parse_line.
    rewrite (getline_eof comma line Hl); reflexivity.
  - intros name rest Hname; unfold parse_line.
    rewrite (getline_delim comma name _ Hname); reflexivity.
  - intros name ws sign ds tail Hname Hws Hsign Hne Hds Htail.
    assert (snd (parse_line junk (name ++ comma :: ws ++ sign ++ ds ++ tail)) =
            saturate (signed sign (decimal ds))) as Numeral.
    { unfold parse_line; rewrite (getline_delim comma name _ Hname); cbn [snd].
      rewrite extract_int_after_spaces.
      - apply (num_get_numeral sign ds tail Hsign Hne Hds Htail).
      - exact Hws.
      - destruct ds as [|c ds]; [congruence|].
        pose proof Hds as Hc; cbn [forallb] in Hc.
        apply andb_true_iff in Hc as [Hc _].
        apply (is_sign_unspaced sign (ds ++ tail) c Hsign Hc).
      - destruct ds as [|c ds]; [congruence|].
        intros H; apply app_eq_nil in H as [_ H]; discriminate. }
    split; [exact Numeral|].
    intros Hfit; rewrite Numeral; apply saturate_in_int; exact Hfit.
  - intros name ws Hname Hws; unfold parse_line.
    rewrite (getline_delim comma name _ Hname); cbn [snd].
    unfold extract_int.
    pose proof (skipws_spaces ws [] Hws) as S; rewrite app_nil_r in S.
    rewrite S; reflexivity.
  - intros name ws word Hname Hws Hword; unfold parse_line.
    rewrite (getline_delim comma name _ Hname); cbn [snd].
    destruct word as [|c rest]; [discriminate|].
    unfold unnumeric in Hword; apply andb_true_iff in Hword as [Hsp Hnum].
    apply negb_true_iff in Hsp, Hnum.
    rewrite extract_int_after_spaces;
      [apply (num_get_unnumeric _ Hnum) | exact Hws
      | apply skipws_stay; exact Hsp | discriminate].
  - intros line.
    pose proof (getline_split comma line) as Hsplit.
    pose proof (getline_lacks_delim comma line) as Hlacks.
    destruct (getline comma line) as [name [rest|]]; cbn [fst] in Hlacks.
    + right.
      destruct (remainder_shapes rest) as (ws & Hws & Hshape).
      exists name, rest, ws; repeat split; assumption.
    + left; rewrite Hsplit; exact Hlacks.
Qed.

Lemma parse_line_contract_witness :
  parse_line 7 (txt "Messi") = (txt "Messi", 7) /\
  fst (parse_line 7 (txt "Messi, -12 goals")) = txt "Messi" /\
  snd (parse_line 7 (txt "Messi, -12 goals")) = -12 /\
  snd (parse_line 7 (txt "Pele,99999999999")) = INT_MAX /\
  snd (parse_line 7 (txt "Messi, ")) = 7 /\
  snd (parse_line 7 (txt "Messi, twelve")) = 0.
Proof.
  destruct (parse_line_contract 7) as (A & B & C & D & E & _).
  split; [apply (A (txt "Messi")); reflexivity|].
  split; [apply (B (txt "Messi") (txt " -12 goals")); reflexivity|].
  split.
  { apply (C (txt "Messi") (txt " ") (txt "-") (txt "12") (txt " goals"));
      try reflexivity; [discriminate | vm_compute; split; discriminate]. }
  split.
  { apply (C (txt "Pele") [] [] (txt "99999999999") []);
      try reflexivity; discriminate. }
  split; [apply (D (txt "Messi") (txt " ")); reflexivity|].
  apply (E (txt "Messi") (txt " ") (txt "twelve")); reflexivity.
Defined.

(** * Further properties of the member functions *)

(** ** Helper facts *)

Lemma renew_storable (name : text) (newGoals : Z) (p : record) :
  in_int newGoals -> storable p -> storable (renew name newGoals p).
Proof.
  intros Hg [Hn Hp]; unfold renew.
  destruct (text_eqb (fst p) name); split; assumption.
Qed.

Lemma renew_idempotent (name : text) (newGoals : Z) (p : record) :
  renew name newGoals (renew name newGoals p) = renew name newGoals p.
Proof.
  unfold renew; destruct (text_eqb (fst p) name) eqn:E; cbn [fst];
    rewrite E; reflexivity.
Qed.

Lemma named_renew (name : text) (newGoals : Z) (p : record) :
  named name (renew name newGoals p) = named name p.
Proof.
  unfold named, renew; destruct (text_eqb (fst p) name) eqn:E; cbn [fst];
    rewrite E; reflexivity.
Qed.

(** The vector written by step 5 holds storable records when the target
    name is plain and the new goal count is an [int]. *)
Lemma written_vector_storable (ind : nat -> Z) (name : text) (newGoals : Z)
  (bytes : text) :
  plain name = true -> in_int newGoals ->
  Forall storable
    (fst (modify_or_add name newGoals (read_players ind 0 (getlines bytes)))).
Proof.
  intros Hn Hg; rewrite modify_or_add_spec; cbn [fst].
  apply Forall_app; split.
  - apply Forall_map.
    eapply Forall_impl; [|apply read_players_of_file_storable].
    intros p Hp; apply renew_storable; assumption.
  - destruct (existsb (named name) (read_players ind 0 (getlines bytes)));
      [constructor|].
    constructor; [split; assumption | constructor].
Qed.

(** Running step 2 again on the vector it produced finds the target and
    changes nothing. *)
Lemma modify_or_add_again (name : text) (newGoals : Z) (players : list record) :
  modify_or_add name newGoals (fst (modify_or_add name newGoals players)) =
  (fst (modify_or_add name newGoals players), true).
Proof.
  rewrite (modify_or_add_spec name newGoals players); cbn [fst].
  rewrite modify_or_add_spec.
  assert (existsb (named name)
            (map (renew name newGoals) players
               ++ (if existsb (named name) players then []
                   else [(name, newGoals)])) = true) as Found.
  { rewrite existsb_app.
    destruct (existsb (named name) players) eqn:E.
    - rewrite orb_false_r.
      apply existsb_exists in E as (p & Hin & Hp).
      apply existsb_exists; exists (renew name newGoals p); split.
      + apply in_map; exact Hin.
      + rewrite named_renew; exact Hp.
    - cbn [existsb]; unfold named at 2; cbn [fst].
      rewrite text_eqb_refl, orb_true_r; reflexivity. }
  rewrite Found, app_nil_r, map_app, map_map.
  f_equal; f_equal.
  - apply map_ext; intros p; apply renew_idempotent.
  - destruct (existsb (named name) players); [reflexivity|].
    cbn [map]; unfold renew; cbn [fst]; rewrite text_eqb_refl; reflexivity.
Qed.

(** No record read from a file carries a name that is not plain. *)
Lemma unplain_name_absent (ind : nat -> Z) (name : text) (bytes : text) :
  plain name = false ->
  forall p, In p (read_players ind 0 (getlines bytes)) -> fst p <> name.
Proof.
  intros Hn p Hin Heq.
  pose proof (read_players_of_file_storable ind bytes) as S.
  rewrite Forall_forall in S; destruct (S p Hin) as [Hp _].
  congruence.
Qed.

Lemma modify_or_add_absent (name : text) (newGoals : Z) (players : list record) :
  (forall p, In p players -> fst p <> name) ->
  modify_or_add name newGoals players = (players ++ [(name, newGoals)], false).
Proof.
  intros H.
  rewrite modify_or_add_spec, (existsb_named_false _ _ H).
  rewrite (map_renew_unmatched _ _ _ H); reflexivity.
Qed.

Lemma getline_cut (d : ascii) (a b : text) :
  fst (getline d (a ++ d :: b)) = fst (getline d a).
Proof.
  induction a as [|c a IH]; cbn [app getline].
  - rewrite Ascii.eqb_refl; reflexivity.
  - destruct (Ascii.eqb c d); [reflexivity|].
    destruct (getline d (a ++ d :: b)), (getline d a); cbn [fst] in *.
    rewrite IH; reflexivity.
Qed.

Lemma length_overwrite (out old : text) :
  length (overwrite out old) = Nat.max (length out) (length old).
Proof.
  unfold overwrite; rewrite length_app, length_skipn; lia.
Qed.

(** ** [updatePlayer] and the file *)

(** X1. [updatePlayer] never makes the file shorter: the file it leaves
    is as long as the longer of the text it wrote and the file it found,
    and the old bytes beyond the written text are still there. *)
Theorem updatePlayer_never_shortens (self : Soccer) (ind : nat -> Z)
  (name : text) (newGoals : Z) (bytes : text) :
  length (bytes_of (fst (updatePlayer self ind name newGoals
                           (File true true bytes)))) =
  Nat.max
    (length (put_players
               (fst (modify_or_add name newGoals
                       (read_players ind 0 (getlines bytes))))))
    (length bytes) /\
  (length bytes <=
   length (bytes_of (fst (updatePlayer self ind name newGoals
                            (File true true bytes)))))%nat /\
  skipn
    (length (put_players
               (fst (modify_or_add name newGoals
                       (read_players ind 0 (getlines bytes))))))
    (bytes_of (fst (updatePlayer self ind name newGoals
                      (File true true bytes)))) =
  skipn
    (length (put_players
               (fst (modify_or_add name newGoals
                       (read_players ind 0 (getlines bytes))))))
    bytes.
Proof.
  rewrite updatePlayer_file; cbn [bytes_of].
  rewrite length_overwrite.
  split; [reflexivity|].
  split; [lia|].
  unfold overwrite.
  rewrite skipn_app, Nat.sub_diag, skipn_all; reflexivity.
Qed.

(** X2. Writing records and reading them back gives the same records:
    for records with plain names and [int] goal counts, the reading loop
    applied to what the writing loop printed returns them unchanged; and
    whatever a file holds, writing out the records read from it and
    reading again gives those records once more. *)
Theorem write_read_round_trip (ind : nat -> Z) :
  (forall rs,
      Forall storable rs ->
      read_players ind 0 (getlines (put_players rs)) = rs) /\
  (forall ind0 bytes,
      read_players ind 0
        (getlines (put_players (read_players ind0 0 (getlines bytes)))) =
      read_players ind0 0 (getlines bytes)).
Proof.
  assert (forall rs, Forall storable rs ->
                     read_players ind 0 (getlines (put_players rs)) = rs) as R.
  { intros rs Hrs.
    pose proof (read_put_players ind rs [] Hrs 0%nat) as E.
    rewrite app_nil_r in E; rewrite E.
    cbn [getlines read_players]; apply app_nil_r. }
  split; [exact R|].
  intros ind0 bytes; apply R, read_players_of_file_storable.
Qed.

Lemma write_read_round_trip_witness :
  read_players zeros 0
    (getlines (put_players [(txt "Marta", 17); (txt "", -4)])) =
  [(txt "Marta", 17); (txt "", -4)].
Proof.
  destruct (write_read_round_trip zeros) as [A _].
  apply A.
  repeat constructor; unfold INT_MIN, INT_MAX; cbn [snd]; lia.
Defined.

(** X3. Whatever the file holds, every record [displayPlayers] lists has
    a name without comma and without line break and a goal count in the
    range of [int]. *)
Theorem listed_records_storable (self : Soccer) (ind : nat -> Z) (m : medium) :
  Forall
    (fun p =>
       lacks comma (fst p) = true /\ lacks newline (fst p) = true /\
       INT_MIN <= snd p <= INT_MAX)
    (fst (displayPlayers self ind m)).
Proof.
  unfold displayPlayers.
  destruct (fopen ios_in m) as [f|]; cbn [fst]; [|constructor].
  eapply Forall_impl; [|apply (read_players_of_file_storable ind (bytes_of f))].
  intros p [Hp Hg]; apply plain_lacks in Hp as [Hc Hn].
  split; [exact Hc | split; [exact Hn | exact Hg]].
Qed.

(** X4. What is listed after [updatePlayer], for a plain target name and
    an [int] goal count: first the vector that was written, then
    whatever the reading loop makes of the old bytes left beyond the
    written text.  When the written text covers the old file, the
    listing is the written vector. *)
Theorem updatePlayer_then_list (self : Soccer) (ind ind' : nat -> Z)
  (name : text) (newGoals : Z) (bytes : text) :
  plain name = true -> in_int newGoals ->
  fst (displayPlayers self ind'
         (fst (updatePlayer self ind name newGoals (File true true bytes)))) =
  fst (modify_or_add name newGoals (read_players ind 0 (getlines bytes)))
    ++ read_players ind'
         (length (fst (modify_or_add name newGoals
                         (read_players ind 0 (getlines bytes)))))
         (getlines
            (skipn
               (length (put_players
                          (fst (modify_or_add name newGoals
                                  (read_players ind 0 (getlines bytes))))))
               bytes)) /\
  ((length bytes <=
    length (put_players
              (fst (modify_or_add name newGoals
                      (read_players ind 0 (getlines bytes))))))%nat ->
   fst (displayPlayers self ind'
          (fst (updatePlayer self ind name newGoals (File true true bytes)))) =
   fst (modify_or_add name newGoals (read_players ind 0 (getlines bytes)))).
Proof.
  intros Hn Hg.
  pose proof (written_vector_storable ind name newGoals bytes Hn Hg) as S.
  rewrite updatePlayer_file, displayPlayers_file.
  split.
  - unfold overwrite; rewrite (read_put_players ind' _ _ S); reflexivity.
  - intros Hlen; rewrite (overwrite_covering _ _ Hlen).
    pose proof (read_put_players ind' _ [] S 0%nat) as E.
    rewrite app_nil_r in E; rewrite E.
    cbn [getlines read_players]; apply app_nil_r.
Qed.

Lemma updatePlayer_then_list_witness :
  fst (displayPlayers league zeros
         (fst (updatePlayer league zeros (txt "Rapinoe") 11
                 (File true true seed)))) =
  fst (modify_or_add (txt "Rapinoe") 11 (read_players zeros 0 (getlines seed))).
Proof.
  destruct (updatePlayer_then_list league zeros zeros (txt "Rapinoe") 11 seed)
    as [_ A].
  - reflexivity.
  - unfold in_int, INT_MIN, INT_MAX; lia.
  - apply A; vm_compute; lia.
Defined.

(** X5. [updatePlayer] is idempotent where its rewrite covers the old
    file: for a plain target name and an [int] goal count, a second call
    with the same arguments leaves the file as the first call left it,
    and reports an update, never an insertion. *)
Theorem updatePlayer_twice (self : Soccer) (ind ind' : nat -> Z)
  (name : text) (newGoals : Z) (bytes : text) :
  plain name = true -> in_int newGoals ->
  (length bytes <=
   length (put_players
             (fst (modify_or_add name newGoals
                     (read_players ind 0 (getlines bytes))))))%nat ->
  updatePlayer self ind' name newGoals
    (fst (updatePlayer self ind name newGoals (File true true bytes))) =
  (fst (updatePlayer self ind name newGoals (File true true bytes)),
   {| cout := updated_message name newGoals; cerr := [] |}).
Proof.
  intros Hn Hg Hlen.
  pose proof (written_vector_storable ind name newGoals bytes Hn Hg) as S.
  rewrite updatePlayer_file, (overwrite_covering _ _ Hlen).
  unfold updatePlayer at 1; cbn [fopen bytes_of with_bytes].
  pose proof (read_put_players ind' _ [] S 0%nat) as E.
  rewrite app_nil_r in E; rewrite E.
  cbn [getlines read_players]; rewrite app_nil_r.
  rewrite modify_or_add_again; cbn [negb].
  rewrite overwrite_covering by apply Nat.le_refl.
  reflexivity.
Qed.

Lemma updatePlayer_twice_witness :
  updatePlayer league zeros (txt "Alex Morgan") 8
    (fst (updatePlayer league zeros (txt "Alex Morgan") 8 (File true true seed))) =
  (fst (updatePlayer league zeros (txt "Alex Morgan") 8 (File true true seed)),
   {| cout := updated_message (txt "Alex Morgan") 8; cerr := [] |}).
Proof.
  apply updatePlayer_twice.
  - reflexivity.
  - unfold in_int, INT_MIN, INT_MAX; lia.
  - vm_compute; lia.
Defined.

(** X6. A target name that holds a comma or a line break is never
    found, whatever the file holds: [updatePlayer] reports "not found"
    and puts a new record after the records read, on every call. *)
Theorem updatePlayer_unplain_target (self : Soccer) (ind : nat -> Z)
  (name : text) (newGoals : Z) (bytes : text) :
  plain name = false ->
  modify_or_add name newGoals (read_players ind 0 (getlines bytes)) =
  (read_players ind 0 (getlines bytes) ++ [(name, newGoals)], false) /\
  cout (snd (updatePlayer self ind name newGoals (File true true bytes))) =
  not_found_message name.
Proof.
  intros Hn.
  pose proof (modify_or_add_absent name newGoals _
                (unplain_name_absent ind name bytes Hn)) as M.
  split; [exact M|].
  rewrite updatePlayer_cout, M; reflexivity.
Qed.

Lemma updatePlayer_unplain_target_witness :
  cout (snd (updatePlayer league zeros (txt "Morgan, Alex") 8
               (fst (updatePlayer league zeros (txt "Morgan, Alex") 8
                       (File true true seed))))) =
  not_found_message (txt "Morgan, Alex").
Proof.
  apply (updatePlayer_unplain_target league zeros (txt "Morgan, Alex") 8).
  reflexivity.
Defined.

(** ** [addPlayer] and the other operations *)

Lemma lacks_line_of_record (name : text) (goals : Z) :
  lacks newline name = true -> in_int goals ->
  lacks newline (name ++ comma :: put_int goals) = true.
Proof.
  intros Hn Hg.
  change (comma :: put_int goals) with ([comma] ++ put_int goals).
  rewrite !lacks_app, Hn, (put_int_lacks newline _ Hg); reflexivity.
Qed.

(** The lines of a file after one record was appended to it. *)
Lemma getlines_after_addPlayer (name : text) (goals : Z) (bytes : text) :
  lacks newline name = true -> in_int goals -> line_terminated bytes = true ->
  getlines (bytes ++ put_record (name, goals)) =
  getlines bytes ++ [name ++ comma :: put_int goals].
Proof.
  intros Hn Hg Hb.
  rewrite (getlines_app _ _ Hb); f_equal.
  unfold put_record; cbn [fst snd].
  replace (name ++ comma :: put_int goals ++ [newline])
    with ((name ++ comma :: put_int goals) ++ newline :: [])
    by (rewrite <- app_assoc; reflexivity).
  apply getlines_line, lacks_line_of_record; assumption.
Qed.

(** X7. A player added with [addPlayer] is found by [updatePlayer]: for
    a plain name and an [int] goal count, on a file that is empty or
    ends with a line break, [updatePlayer] with that name right after
    [addPlayer] reports an update, and the vector it writes has as many
    records as the file listed, the added one carrying the new count. *)
Theorem addPlayer_then_updatePlayer (self : Soccer) (ind : nat -> Z)
  (name : text) (goals newGoals : Z) (bytes : text) :
  plain name = true -> in_int goals -> line_terminated bytes = true ->
  cout (snd (updatePlayer self ind name newGoals
               (fst (addPlayer self name goals (File true true bytes))))) =
  updated_message name newGoals /\
  fst (modify_or_add name newGoals
         (read_players ind 0
            (getlines (bytes_of (fst (addPlayer self name goals
                                        (File true true bytes))))))) =
  map (renew name newGoals) (read_players ind 0 (getlines bytes))
    ++ [(name, newGoals)].
Proof.
  intros Hn Hg Hb.
  rewrite addPlayer_file, updatePlayer_cout; cbn [bytes_of].
  pose proof (list_after_append ind bytes [(name, goals)]) as L.
  cbn [put_players] in L; rewrite app_nil_r in L.
  rewrite L; [|constructor; [split; assumption | constructor] | exact Hb].
  rewrite modify_or_add_spec; cbn [fst snd].
  assert (existsb (named name)
            (read_players ind 0 (getlines bytes) ++ [(name, goals)]) = true)
    as Found.
  { rewrite existsb_app; cbn [existsb]; unfold named at 2; cbn [fst].
    rewrite text_eqb_refl, orb_true_r; reflexivity. }
  rewrite Found, app_nil_r, map_app; cbn [map].
  unfold renew at 2; cbn [fst]; rewrite text_eqb_refl.
  split; reflexivity.
Qed.

Lemma addPlayer_then_updatePlayer_witness :
  cout (snd (updatePlayer league zeros (txt "Alex Morgan") 9
               (fst (addPlayer league (txt "Alex Morgan") 8
                       (File true true seed))))) =
  updated_message (txt "Alex Morgan") 9.
Proof.
  apply (addPlayer_then_updatePlayer league zeros (txt "Alex Morgan") 8 9 seed).
  - reflexivity.
  - unfold in_int, INT_MIN, INT_MAX; lia.
  - reflexivity.
Defined.

(** X8. [addPlayer] with a name that holds no line break adds exactly
    one record to what is listed, commas in the name or not: the
    records listed before stay as they were, and the listed name of the
    new record is the given name cut at its first comma. *)
Theorem addPlayer_adds_one_listed (self : Soccer) (ind : nat -> Z)
  (name : text) (goals : Z) (bytes : text) :
  lacks newline name = true -> in_int goals -> line_terminated bytes = true ->
  fst (displayPlayers self ind
         (fst (addPlayer self name goals (File true true bytes)))) =
  fst (displayPlayers self ind (File true true bytes))
    ++ [parse_line (ind (length (getlines bytes)))
          (name ++ comma :: put_int goals)] /\
  fst (parse_line (ind (length (getlines bytes)))
         (name ++ comma :: put_int goals)) =
  fst (getline comma name).
Proof.
  intros Hn Hg Hb.
  rewrite addPlayer_file, !displayPlayers_file.
  rewrite (getlines_after_addPlayer name goals bytes Hn Hg Hb).
  rewrite read_players_app; cbn [read_players Nat.add].
  replace (empty (name ++ comma :: put_int goals)) with false
    by (destruct name; reflexivity).
  split; [reflexivity|].
  unfold parse_line.
  pose proof (getline_cut comma name (put_int goals)) as C.
  destruct (getline comma (name ++ comma :: put_int goals)); exact C.
Qed.

Lemma addPlayer_adds_one_listed_witness :
  fst (displayPlayers league zeros
         (fst (addPlayer league (txt "Smith, John") 3 (File true true seed)))) =
  fst (displayPlayers league zeros (File true true seed))
    ++ [parse_line (zeros (length (getlines seed)))
          (txt "Smith, John" ++ comma :: put_int 3)].
Proof.
  apply (addPlayer_adds_one_listed league zeros (txt "Smith, John") 3 seed).
  - reflexivity.
  - unfold in_int, INT_MIN, INT_MAX; lia.
  - reflexivity.
Defined.

(** ** [ensureFileExists] *)

(** X9. What [ensureFileExists] does to a file that exists: a file that
    cannot be read but can be written loses its content, which is
    replaced by the three seed lines; every other existing file is left
    as it is.  After the call the file can be opened for reading except
    when it was missing and could not be created, or existed and could
    not be read. *)
Theorem ensureFileExists_effect (self : Soccer) :
  (forall bytes,
      fst (ensureFileExists self (File false true bytes)) =
      File false true seed) /\
  (forall r w bytes,
      (r = true \/ w = false) ->
      fst (ensureFileExists self (File r w bytes)) = File r w bytes) /\
  (forall m,
      fopen ios_in (fst (ensureFileExists self m)) = None <->
      (m = Missing false \/ exists w bytes, m = File false w bytes)).
Proof.
  split; [reflexivity|].
  split.
  - intros [] [] bytes [H | H]; try discriminate H; reflexivity.
  - intros [[] | [] [] bytes]; cbn; split;
      try discriminate; try (intros _; reflexivity);
      try (intros [H | (w & b & H)]; discriminate H).
    + intros _; left; reflexivity.
    + intros _; right; exists true, bytes; reflexivity.
    + intros _; right; exists false, bytes; reflexivity.
Qed.

Lemma ensureFileExists_effect_witness :
  fst (ensureFileExists league
         (File true false (txt "Kane,30" ++ [newline]))) =
  File true false (txt "Kane,30" ++ [newline]).
Proof.
  destruct (ensureFileExists_effect league) as (_ & A & _).
  apply A; left; reflexivity.
Defined.

(** ** The reading loop and the console *)

(** X10. The reading loop sees every byte of the file: its lines, each
    followed by a line break, make up the file again, with one line
    break more when the file does not end with one. *)
Theorem getlines_join (bytes : text) :
  flat_map (fun line => line ++ [newline]) (getlines bytes) =
  if line_terminated bytes then bytes else bytes ++ [newline].
Proof.
  induction bytes as [|c s IH]; [reflexivity|].
  cbn [getlines line_terminated].
  destruct (Ascii.eqb c newline) eqn:E.
  - apply Ascii.eqb_eq in E; subst c.
    cbn [flat_map app]; rewrite IH.
    destruct s as [|c' s]; [reflexivity|].
    destruct (line_terminated (c' :: s)); reflexivity.
  - destruct (getlines s) as [|l ls] eqn:G.
    + apply getlines_nil_inv in G; subst s; reflexivity.
    + cbn [flat_map] in *.
      change (((c :: l) ++ [newline]) ++ flat_map (fun line => line ++ [newline]) ls)
        with (c :: ((l ++ [newline]) ++ flat_map (fun line => line ++ [newline]) ls)).
      rewrite IH.
      destruct s as [|c' s]; [discriminate G|].
      destruct (line_terminated (c' :: s)); reflexivity.
Qed.

Lemma lines_of_players (shown : list record) :
  Forall storable shown ->
  getlines (flat_map show_player shown) =
  map (fun p => txt "Player: " ++ fst p ++ txt " | Goals: " ++ put_int (snd p))
    shown.
Proof.
  induction 1 as [|p more [Hp Hg] _ IH]; [reflexivity|].
  apply plain_lacks in Hp as [_ Hn].
  assert (show_player p =
          (txt "Player: " ++ fst p ++ txt " | Goals: " ++ put_int (snd p))
            ++ [newline]) as E
    by (unfold show_player; rewrite <- !app_assoc; reflexivity).
  cbn [flat_map map]; rewrite E, <- app_assoc; cbn [app].
  rewrite getlines_line, IH; [reflexivity|].
  rewrite !lacks_app, Hn, (put_int_lacks newline _ Hg); reflexivity.
Qed.

(** X11. When the file can be read, [displayPlayers] writes nothing to
    [cerr], and what it writes to [cout] is, line by line: an empty
    line, the two banner lines, and then one line
    "Player: <name> | Goals: <goals>" for each record listed, in
    order. *)
Theorem displayPlayers_cout_lines (self : Soccer) (ind : nat -> Z) (w : bool)
  (bytes : text) :
  cerr (snd (displayPlayers self ind (File true w bytes))) = [] /\
  getlines (cout (snd (displayPlayers self ind (File true w bytes)))) =
  [[]; txt "Current Soccer Stats:"; txt "----------------------------"]
    ++ map (fun p =>
              txt "Player: " ++ fst p ++ txt " | Goals: " ++ put_int (snd p))
         (fst (displayPlayers self ind (File true w bytes))).
Proof.
  split; [reflexivity|].
  unfold displayPlayers; cbn [fopen bytes_of fst snd cout].
  rewrite getlines_app by reflexivity.
  rewrite (lines_of_players _ (read_players_of_file_storable ind bytes)).
  reflexivity.
Qed.

(** ** [updatePlayer] as [addPlayer] *)

Lemma put_players_app (a b : list record) :
  put_players (a ++ b) = put_players a ++ put_players b.
Proof.
  induction a as [|p a IH]; cbn [app put_players]; [reflexivity|].
  rewrite IH, app_assoc; reflexivity.
Qed.

(** X12. On a file that holds exactly the text written for records with
    plain names and [int] goal counts, [updatePlayer] with a name none
    of them has leaves the file that [addPlayer] with the same
    arguments leaves: the old text, unchanged, followed by the one new
    line. *)
Theorem updatePlayer_absent_is_addPlayer (self : Soccer) (ind : nat -> Z)
  (name : text) (newGoals : Z) (rs : list record) :
  Forall storable rs ->
  (forall p, In p rs -> fst p <> name) ->
  fst (updatePlayer self ind name newGoals (File true true (put_players rs))) =
  fst (addPlayer self name newGoals (File true true (put_players rs))) /\
  bytes_of (fst (updatePlayer self ind name newGoals
                   (File true true (put_players rs)))) =
  put_players rs ++ put_record (name, newGoals).
Proof.
  intros Hrs Habsent.
  rewrite updatePlayer_file, addPlayer_file; cbn [bytes_of].
  pose proof (read_put_players ind rs [] Hrs 0%nat) as E.
  rewrite app_nil_r in E; rewrite E.
  cbn [getlines read_players]; rewrite app_nil_r.
  rewrite (modify_or_add_absent name newGoals rs Habsent); cbn [fst].
  rewrite put_players_app; cbn [put_players]; rewrite app_nil_r.
  rewrite overwrite_covering by (rewrite length_app; lia).
  split; reflexivity.
Qed.

Lemma updatePlayer_absent_is_addPlayer_witness :
  fst (updatePlayer league zeros (txt "Alex Morgan") 8
         (File true true (put_players [(txt "Messi", 12); (txt "Rapinoe", 9)]))) =
  fst (addPlayer league (txt "Alex Morgan") 8
         (File true true (put_players [(txt "Messi", 12); (txt "Rapinoe", 9)]))).
Proof.
  apply (updatePlayer_absent_is_addPlayer league zeros (txt "Alex Morgan") 8
           [(txt "Messi", 12); (txt "Rapinoe", 9)]).
  - repeat constructor; unfold INT_MIN, INT_MAX; cbn [snd]; lia.
  - intros p [H | [H | []]]; subst p; discriminate.
Defined.

(** * [updatePlayer] as seen in the file afterwards *)

(** Step 2 alone, on the vector in memory: every record read whose name
    is the target carries the new goal count, and when one matched the
    vector keeps its length. *)
Lemma written_vector_updates_every_match (name : text) (newGoals : Z)
  (players : list record) :
  (forall i p,
      nth_error players i = Some p -> fst p = name ->
      nth_error (fst (modify_or_add name newGoals players)) i =
      Some (name, newGoals)) /\
  ((exists p, In p players /\ fst p = name) ->
   length (fst (modify_or_add name newGoals players)) = length players).
Proof.
  rewrite modify_or_add_spec; cbn [fst]; split.
  - intros i p Hi Hp.
    rewrite (nth_error_renew name newGoals _ i p Hi).
    unfold renew; rewrite <- Hp, text_eqb_refl; reflexivity.
  - intros Hex; apply existsb_named_true in Hex.
    rewrite Hex, app_nil_r; apply length_map.
Qed.


(** C2 (the code departs from it).  Step 2 gives the new goal count to
    every record read whose name is the target, but the file is
    rewritten from offset zero without being shortened, so a record of
    that name may survive in the old bytes beyond the written text.  A
    file with the line Dup,1, six empty lines and the line Dup,2 lists
    two records named Dup; [updatePlayer] of Dup to 5 writes the two
    records Dup,5 over the first twelve bytes and leaves the last six,
    Dup,2 and its line break, in place: the file then lists three
    records named Dup, the third still with 2 goals. *)
Theorem updatePlayer_leaves_old_match :
  (forall ind,
      fst (displayPlayers league ind
             (File true true
                (txt "Dup,1" ++ repeat newline 7 ++ txt "Dup,2" ++ [newline]))) =
      [(txt "Dup", 1); (txt "Dup", 2)]) /\
  (forall ind,
      fst (modify_or_add (txt "Dup") 5
             (read_players ind 0
                (getlines
                   (txt "Dup,1" ++ repeat newline 7 ++ txt "Dup,2"
                      ++ [newline])))) =
      [(txt "Dup", 5); (txt "Dup", 5)]) /\
  (forall ind,
      fst (updatePlayer league ind (txt "Dup") 5
             (File true true
                (txt "Dup,1" ++ repeat newline 7 ++ txt "Dup,2" ++ [newline]))) =
      File true true
        (txt "Dup,5" ++ newline :: txt "Dup,5" ++ newline
           :: txt "Dup,2" ++ [newline])) /\
  (forall ind ind',
      fst (displayPlayers league ind'
             (fst (updatePlayer league ind (txt "Dup") 5
                     (File true true
                        (txt "Dup,1" ++ repeat newline 7 ++ txt "Dup,2"
                           ++ [newline]))))) =
      [(txt "Dup", 5); (txt "Dup", 5); (txt "Dup", 2)]).
Proof.
  split; [intros ind; vm_compute; reflexivity|].
  split; [intros ind; vm_compute; reflexivity|].
  split; [intros ind; vm_compute; reflexivity|].
  intros ind ind'; vm_compute; reflexivity.
Qed.



